(** * Aquarium-Assistant-Goldie asset tools: [png_to_c.py] and [c_to_bin.py]

    A shallow embedding of the two conversion scripts under [tools/]:
    the RGB565 encoder ([convert_png_to_c]) and the byte-array extractor
    ([parse_c_array], [convert_c_to_bin], [main]).

    Text is a list of characters; a character is a code point in 0..255
    (the Latin-1 range, which contains everything the encoder writes).
    The classes [\s] and [\w] are the ones Python's [re] uses for [str]
    patterns, restricted to that range. *)

From Stdlib Require Import Ascii String.
From Stdlib Require Import ZArith NArith Bool Arith Lia List.
From Stdlib Require DecimalString HexadecimalString.
Import ListNotations.

Set Implicit Arguments.

(** ** Text *)

Definition text := list ascii.

Definition str (s : string) : text := list_ascii_of_string s.

Definition text_eqb (a b : text) : bool :=
  if list_eq_dec ascii_dec a b then true else false.

Definition nl : ascii := ascii_of_nat 10.
Definition dquote : ascii := ascii_of_nat 34.

Definition code (c : ascii) : nat := nat_of_ascii c.

Definition between (lo hi : nat) (c : ascii) : bool :=
  (lo <=? code c)%nat && (code c <=? hi)%nat.

(** [\s] of a [str] pattern: [str.isspace] on 0..255. *)
Definition is_space (c : ascii) : bool :=
  between 9 13 c || between 28 32 c || (code c =? 133)%nat || (code c =? 160)%nat.

(** [\w] of a [str] pattern: alphanumeric or underscore on 0..255. *)
Definition is_word (c : ascii) : bool :=
  between 48 57 c || between 65 90 c || (code c =? 95)%nat || between 97 122 c
  || (code c =? 170)%nat || between 178 179 c || (code c =? 181)%nat
  || between 185 186 c || between 188 190 c
  || between 192 214 c || between 216 246 c || between 248 255 c.

(** [[0-9a-fA-F]] *)
Definition is_hex (c : ascii) : bool :=
  between 48 57 c || between 97 102 c || between 65 70 c.

(** [[^}]] *)
Definition not_rbrace (c : ascii) : bool := negb (code c =? 125)%nat.

Fixpoint join (sep : text) (l : list text) : text :=
  match l with
  | [] => []
  | [x] => x
  | x :: l' => x ++ sep ++ join sep l'
  end.

(** Python's [l[i:j]] for [0 <= i <= j]. *)
Definition slice {A} (l : list A) (i j : nat) : list A := firstn (j - i) (skipn i l).

(** [range(0, stop, step)] for a positive [step]. *)
Definition range_step (stop step : nat) : list nat :=
  map (fun k => k * step)%nat (seq 0 ((stop + step - 1) / step)).

(** [str(n)] / [f'{n}'] of a non-negative integer. *)
Definition dec (n : nat) : text :=
  str (DecimalString.NilZero.string_of_uint (Nat.to_uint n)).

(** [f'{v:02x}'] of a non-negative integer: lower-case hexadecimal,
    padded with zeros on the left to two characters. *)
Definition fmt_02x (v : Z) : text :=
  let d := str (HexadecimalString.NilZero.string_of_uint (N.to_hex_uint (Z.to_N v))) in
  repeat "0"%char (2 - length d) ++ d.

(** ** Exceptions and results *)

Inductive exn : Type :=
| ValueError (msg : text)
| TypeError (msg : text)
| OSError (msg : text).

Inductive result (A : Type) : Type :=
| Ok (a : A)
| Raise (e : exn).

Arguments Ok {A} a.
Arguments Raise {A} e.

(** ** The fragment of [re] that the decoder's patterns use

    Repetition only ever applies to a character class in these patterns
    ([\s+], [\s*], [\w+], [[^}]+]), so a repetition node carries the class
    and its minimum count.  [run] lists the ways a pattern can match a
    prefix of the input in the order in which the backtracking engine tries
    them (greedy: longest first); the engine's answer is the head of that
    list.  A match state is the unread input and the text of group 1. *)

Inductive regex : Type :=
| Lit (s : text)
| Cls (p : ascii -> bool)
| Rep (p : ascii -> bool) (least : nat)
| Opt (r : regex)
| Alt (r1 r2 : regex)
| Cat (r1 r2 : regex)
| Grp (r : regex).

Definition mstate : Type := text * option text.

Fixpoint lit_match (l s : text) : option text :=
  match l, s with
  | [], _ => Some s
  | a :: l', b :: s' => if Ascii.eqb a b then lit_match l' s' else None
  | _ :: _, [] => None
  end.

Fixpoint rep_match (p : ascii -> bool) (least : nat) (s : text) : list text :=
  match s with
  | a :: s' => if p a then rep_match p (pred least) s' else []
  | [] => []
  end ++ match least with O => [s] | S _ => [] end.

Fixpoint run (r : regex) (s : text) (cap : option text) : list mstate :=
  match r with
  | Lit l => match lit_match l s with Some s' => [(s', cap)] | None => [] end
  | Cls p => match s with
             | a :: s' => if p a then [(s', cap)] else []
             | [] => []
             end
  | Rep p least => map (fun s' => (s', cap)) (rep_match p least s)
  | Opt r' => run r' s cap ++ [(s, cap)]
  | Alt r1 r2 => run r1 s cap ++ run r2 s cap
  | Cat r1 r2 => flat_map (fun st => run r2 (fst st) (snd st)) (run r1 s cap)
  | Grp r' => map (fun st => (fst st, Some (firstn (length s - length (fst st)) s)))
                  (run r' s cap)
  end.

(** [pattern.match(s)]: the first way of matching at the start of [s]. *)
Definition match_at (r : regex) (s : text) : option mstate := hd_error (run r s None).

(** [re.search(r, s)]: the match at the leftmost position that has one. *)
Fixpoint search (r : regex) (s : text) : option mstate :=
  match match_at r s with
  | Some m => Some m
  | None => match s with
            | [] => None
            | _ :: s' => search r s'
            end
  end.

(** [re.findall(r, s)] for a pattern with one group that never matches the
    empty string: the group texts of the successive non-overlapping matches,
    scanning left to right.  [skip] counts the characters of the last match
    that are still to be stepped over. *)
Fixpoint findall_from (r : regex) (skip : nat) (s : text) : list text :=
  match skip with
  | S k => match s with
           | [] => []
           | _ :: s' => findall_from r k s'
           end
  | O => match match_at r s with
         | Some (rest, cap) =>
             match cap with Some g => g | None => [] end ::
             match s with
             | [] => []
             | _ :: s' => findall_from r (length s - length rest - 1) s'
             end
         | None => match s with
                   | [] => []
                   | _ :: s' => findall_from r 0 s'
                   end
         end
  end.

Definition findall (r : regex) (s : text) : list text := findall_from r 0 s.

Fixpoint cat (rs : list regex) : regex :=
  match rs with
  | [] => Lit []
  | [r] => r
  | r :: rs' => Cat r (cat rs')
  end.

(** ** [c_to_bin.py] *)

Module CToBin.

Local Open Scope Z_scope.

(** [static\s+const\s+(?:LV_ATTRIBUTE_MEM_ALIGN\s+)?uint(?:8|16)_t\s+\w+_map\[\]\s*=\s*\{([^}]+)\}]
    ([re.DOTALL] changes nothing: the pattern has no dot.) *)
Definition array_pattern_map : regex :=
  cat [ Lit (str "static"); Rep is_space 1; Lit (str "const"); Rep is_space 1;
        Opt (Cat (Lit (str "LV_ATTRIBUTE_MEM_ALIGN")) (Rep is_space 1));
        Lit (str "uint"); Alt (Lit (str "8")) (Lit (str "16")); Lit (str "_t");
        Rep is_space 1; Rep is_word 1; Lit (str "_map"); Lit (str "[]");
        Rep is_space 0; Lit (str "="); Rep is_space 0; Lit (str "{");
        Grp (Rep not_rbrace 1); Lit (str "}") ].

(** [static\s+const\s+(?:LV_ATTRIBUTE_MEM_ALIGN\s+)?uint(?:8|16)_t\s+\w+\[\]\s*=\s*\{([^}]+)\}] *)
Definition array_pattern_any : regex :=
  cat [ Lit (str "static"); Rep is_space 1; Lit (str "const"); Rep is_space 1;
        Opt (Cat (Lit (str "LV_ATTRIBUTE_MEM_ALIGN")) (Rep is_space 1));
        Lit (str "uint"); Alt (Lit (str "8")) (Lit (str "16")); Lit (str "_t");
        Rep is_space 1; Rep is_word 1; Lit (str "[]");
        Rep is_space 0; Lit (str "="); Rep is_space 0; Lit (str "{");
        Grp (Rep not_rbrace 1); Lit (str "}") ].

(** [0x([0-9a-fA-F]{2})] *)
Definition hex_pattern : regex :=
  cat [ Lit (str "0x"); Grp (Cat (Cls is_hex) (Cls is_hex)) ].

Definition hex_digit (c : ascii) : option Z :=
  if between 48 57 c then Some (Z.of_nat (code c) - 48)
  else if between 97 102 c then Some (Z.of_nat (code c) - 87)
  else if between 65 70 c then Some (Z.of_nat (code c) - 55)
  else None.

(** [int(val, 16)] on a text of hexadecimal digits. *)
Fixpoint int16_from (acc : Z) (val : text) : option Z :=
  match val with
  | [] => Some acc
  | c :: val' => match hex_digit c with
                 | Some d => int16_from (16 * acc + d) val'
                 | None => None
                 end
  end.

Definition int16 (val : text) : option Z :=
  match val with
  | [] => None
  | _ => int16_from 0 val
  end.

(** [bytes([int(val, 16) for val in hex_values])] *)
Fixpoint to_bytes (hex_values : list text) : result (list Z) :=
  match hex_values with
  | [] => Ok []
  | val :: rest =>
      match int16 val with
      | None => Raise (ValueError (str "invalid literal for int() with base 16"))
      | Some b =>
          match to_bytes rest with
          | Ok bs => if (0 <=? b) && (b <? 256) then Ok (b :: bs)
                     else Raise (ValueError (str "bytes must be in range(0, 256)"))
          | Raise e => Raise e
          end
      end
  end.

(** Lines 33-43 of [parse_c_array]: from the text of group 1 to the bytes. *)
Definition extract_bytes (c_file_path array_str : text) : result (list Z) :=
  let hex_values := findall hex_pattern array_str in
  match hex_values with
  | [] => Raise (ValueError (str "Could not parse hex values from array in " ++ c_file_path))
  | _ => to_bytes hex_values
  end.

(** Lines 20-43 of [parse_c_array], on the text read from the file. *)
Definition parse_content (c_file_path content : text) : result (list Z) :=
  let m := match search array_pattern_map content with
           | Some m => Some m
           | None => search array_pattern_any content
           end in
  match m with
  | None => Raise (ValueError (str "Could not find pixel data array in " ++ c_file_path))
  | Some (_, group1) =>
      match group1 with
      | Some array_str => extract_bytes c_file_path array_str
      | None => Raise (TypeError (str "expected string or bytes-like object"))
      end
  end.

(** *** The file system and the console

    [files] is what a path names when the run looks at it: nothing, an
    entry whose status cannot be read ([Path.exists] raises, as for a link
    into a directory without search permission), a file that cannot be
    opened or read, or a readable text.  [on_write] is what happens when
    the run creates the output directory and writes an output file,
    [print_fault] the error (if any) that printing a line raises (a console
    that cannot encode the line, a closed pipe), [listing] the value of
    [sorted(input_dir.glob('frame*.c'))] or the error that the scan raises.
    [written] and [console] are what the run produces, oldest first:
    [written] has an entry for every file that the run opened for writing,
    with the bytes that reached it.  The run reads the listed sources only,
    whose names match [frame*.c], and writes names that end in [.bin]
    (lemma [outputs_are_not_sources]): what it writes does not change what
    it reads, and [files] is the same throughout the run. *)

Inductive node : Type :=
| Absent
| Inaccessible (e : exn)
| Unreadable (e : exn)
| Readable (content : text).

(** The outcome of lines 67-71 for an output file: the file holds the
    bytes; or creating the directory or opening the file raises and no file
    is written; or the file is opened, which creates or empties it, and the
    write or the close raises after [kept] bytes have reached the file. *)
Inductive write_outcome : Type :=
| Written
| WriteRefused (e : exn)
| WriteBroken (kept : nat) (e : exn).

(** One value for each call of [print]: [PLine] for a line without a
    formatted field, a constructor with its fields for each f-string. *)
Inductive printed : Type :=
| PLine (s : text)
| PExtracted (n : nat) (c_file_path : text)
| PNotFound (c_file_path : text)
| PCreated (bin_path : text) (n : nat)
| PFailed (c_path : text) (e : exn)
| PInputDir (input_dir : text)
| POutputDir (output_dir : text)
| PNoFiles (input_dir : text)
| PFoundCount (n : nat)
| PFoundName (name : text)
| PTally (success_count total : nat)
| PCopyFrom (output_dir : text).

(** [Path.name]: the last component of a path. *)
Fixpoint name_from (acc p : text) : text :=
  match p with
  | [] => acc
  | c :: p' => if Ascii.eqb c "/" then name_from [] p' else name_from (acc ++ [c]) p'
  end.

Definition path_name (p : text) : text := name_from [] p.

(** [str.rfind('.')] as the number of characters before the last dot. *)
Fixpoint rfind_dot (s : text) : option nat :=
  match s with
  | [] => None
  | c :: s' => match rfind_dot s' with
               | Some i => Some (S i)
               | None => if Ascii.eqb c "." then Some O else None
               end
  end.

(** [Path.stem]: the name without its last suffix. *)
Definition path_stem (p : text) : text :=
  let name := path_name p in
  match rfind_dot name with
  | Some i => if (0 <? i)%nat && (i <? length name - 1)%nat then firstn i name else name
  | None => name
  end.

(** *** [pathlib] paths on POSIX

    A [Path] is a root ([], [/] or [//]) and the components after it;
    parsing a string drops the empty components and the [.] components. *)

Record ppath : Type := {
  root : text;
  parts : list text
}.

(** [s.split('/')] *)
Fixpoint split_from (acc s : text) : list text :=
  match s with
  | [] => [acc]
  | c :: s' =>
      if Ascii.eqb c "/" then acc :: split_from [] s' else split_from (acc ++ [c]) s'
  end.

Fixpoint leading_slashes (s : text) : nat :=
  match s with
  | c :: s' => if Ascii.eqb c "/" then S (leading_slashes s') else O
  | [] => O
  end.

(** [Path(s)] for a string [s]: exactly two leading slashes are kept. *)
Definition Path (s : text) : ppath :=
  {| root := match leading_slashes s with
             | 0%nat => []
             | 2%nat => str "//"
             | _ => str "/"
             end;
     parts := filter (fun x => negb (text_eqb x [] || text_eqb x (str ".")))
                     (split_from [] s) |}.

(** [str(p)] *)
Definition path_str (p : ppath) : text :=
  match root p, parts p with
  | [], [] => str "."
  | r, ps => r ++ join (str "/") ps
  end.

(** [p / s] for a string [s] *)
Definition truediv (p : ppath) (s : text) : ppath :=
  let q := Path s in
  match root q with
  | [] => {| root := root p; parts := parts p ++ parts q |}
  | _ => q
  end.

(** [p.name] and [p.stem] *)
Definition pp_name (p : ppath) : text := last (parts p) [].

Definition pp_stem (p : ppath) : text := path_stem (pp_name p).

(** An argument that is a string or a [Path]. *)
Inductive pathlike : Type :=
| OfStr (s : text)
| OfPath (p : ppath).

(** [Path(x)] *)
Definition as_path (x : pathlike) : ppath :=
  match x with
  | OfStr s => Path s
  | OfPath p => p
  end.

(** [f'{x}'], which is also the name that [open(x)] uses. *)
Definition fstr (x : pathlike) : text :=
  match x with
  | OfStr s => s
  | OfPath p => path_str p
  end.

Record world : Type := {
  files : text -> node;
  on_write : text -> write_outcome;
  print_fault : printed -> option exn;
  listing : text -> result (list ppath);
  written : list (text * list Z);
  console : list printed
}.

(** The world after a line has reached the console. *)
Definition say (w : world) (p : printed) : world :=
  {| files := files w; on_write := on_write w; print_fault := print_fault w;
     listing := listing w; written := written w; console := console w ++ [p] |}.

(** The world after bytes have reached a file. *)
Definition write_file (w : world) (bin_path : text) (data : list Z) : world :=
  {| files := files w; on_write := on_write w; print_fault := print_fault w;
     listing := listing w; written := written w ++ [(bin_path, data)];
     console := console w |}.

(** *** Statements that change the world and may raise *)

Definition M (A : Type) : Type := world -> result A * world.

Definition ret {A : Type} (a : A) : M A := fun w => (Ok a, w).

Definition throw {A : Type} (e : exn) : M A := fun w => (Raise e, w).

Definition bind {A B : Type} (m : M A) (k : A -> M B) : M B :=
  fun w =>
    match m w with
    | (Ok a, w1) => k a w1
    | (Raise e, w1) => (Raise e, w1)
    end.

(** [try: m except Exception as e: handler(e)] *)
Definition try_except {A : Type} (m : M A) (handler : exn -> M A) : M A :=
  fun w =>
    match m w with
    | (Ok a, w1) => (Ok a, w1)
    | (Raise e, w1) => handler e w1
    end.

Notation "x <- m ;; k" := (bind m (fun x => k))
  (at level 61, m at next level, right associativity).
Notation "m ;; k" := (bind m (fun _ => k))
  (at level 61, right associativity).

(** [print(...)] *)
Definition print (p : printed) : M unit :=
  fun w =>
    match print_fault w p with
    | Some e => (Raise e, w)
    | None => (Ok tt, say w p)
    end.

(** [p.exists()]: a missing entry gives [False], an error of another kind
    is raised. *)
Definition path_exists (p : ppath) : M bool :=
  fun w =>
    match files w (path_str p) with
    | Absent => (Ok false, w)
    | Inaccessible e => (Raise e, w)
    | _ => (Ok true, w)
    end.

(** [open(name, 'r', ...)] and [f.read()] *)
Definition read_text (name : text) : M text :=
  fun w =>
    match files w name with
    | Absent => (Raise (OSError (str "No such file or directory: " ++ name)), w)
    | Inaccessible e => (Raise e, w)
    | Unreadable e => (Raise e, w)
    | Readable content => (Ok content, w)
    end.

(** Lines 67-71: [mkdir], [open(bin_path, 'wb')] and [f.write]. *)
Definition write_bytes (bin_path : text) (data : list Z) : M unit :=
  fun w =>
    match on_write w bin_path with
    | Written => (Ok tt, write_file w bin_path data)
    | WriteRefused e => (Raise e, w)
    | WriteBroken kept e => (Raise e, write_file w bin_path (firstn kept data))
    end.

(** [parse_c_array(c_file_path)] *)
Definition parse_c_array (c_file_path : pathlike) : M (list Z) :=
  content <- read_text (fstr c_file_path) ;;
  match parse_content (fstr c_file_path) content with
  | Raise e => throw e
  | Ok pixel_data =>
      print (PExtracted (length pixel_data) (fstr c_file_path)) ;;
      ret pixel_data
  end.

(** Lines 76-78: the handler of [convert_c_to_bin]. *)
Definition on_failure (c_path : ppath) (e : exn) : M bool :=
  print (PFailed (path_str c_path) e) ;;
  ret false.

(** [convert_c_to_bin(c_file_path, output_dir)]: the test of line 54 and
    the print of line 55 are outside the [try]. *)
Definition convert_c_to_bin (c_file_path output_dir : pathlike) : M bool :=
  let c_path := as_path c_file_path in
  found <- path_exists c_path ;;
  if negb found then
    print (PNotFound (fstr c_file_path)) ;;
    ret false
  else
    try_except
      (pixel_data <- parse_c_array (OfPath c_path) ;;
       let bin_filename := pp_stem c_path ++ str ".bin" in
       let bin_path := truediv (as_path output_dir) bin_filename in
       write_bytes (path_str bin_path) pixel_data ;;
       print (PCreated (path_str bin_path) (length pixel_data)) ;;
       ret true)
      (on_failure c_path).

(** The loop of [main] over [c_files]. *)
Fixpoint convert_each (c_files : list ppath) (output_dir : ppath)
    (success_count : nat) : M nat :=
  match c_files with
  | [] => ret success_count
  | c_file :: rest =>
      ok <- convert_c_to_bin (OfPath c_file) (OfPath output_dir) ;;
      convert_each rest output_dir (if ok then S success_count else success_count)
  end.

(** [sorted(input_dir.glob('frame*.c'))] *)
Definition glob_frames (input_dir : ppath) : M (list ppath) :=
  fun w => (listing w (path_str input_dir), w).

(** ["=" * 60] *)
Definition rule : text := repeat "="%char 60.

(** [for f in c_files: print(f"  - {f.name}")] *)
Fixpoint print_names (c_files : list ppath) : M unit :=
  match c_files with
  | [] => ret tt
  | f :: rest => print (PFoundName (pp_name f)) ;; print_names rest
  end.

(** [main()], after the two directories have been chosen. *)
Definition main (input_dir output_dir : ppath) : M Z :=
  print (PLine rule) ;;
  print (PLine (str "LVGL C Array to BIN Converter")) ;;
  print (PLine rule) ;;
  print (PInputDir (path_str input_dir)) ;;
  print (POutputDir (path_str output_dir)) ;;
  print (PLine []) ;;
  c_files <- glob_frames input_dir ;;
  match c_files with
  | [] =>
      print (PNoFiles (path_str input_dir)) ;;
      ret 1
  | _ =>
      print (PFoundCount (length c_files)) ;;
      print_names c_files ;;
      print (PLine []) ;;
      success_count <- convert_each c_files output_dir 0 ;;
      print (PLine []) ;;
      print (PLine rule) ;;
      print (PTally success_count (length c_files)) ;;
      print (PLine rule) ;;
      print (PLine []) ;;
      print (PLine (str "Next steps:")) ;;
      print (PCopyFrom (path_str output_dir)) ;;
      print (PLine (str "2. Create a 'frames' folder on the SD card root")) ;;
      print (PLine (str "3. Place all frame*.bin files in /frames/ directory on SD card")) ;;
      print (PLine (str "4. Rebuild and flash your ESP32 project")) ;;
      print (PLine []) ;;
      ret (if (success_count =? length c_files)%nat then 0 else 1)
  end.


End CToBin.

(** ** [png_to_c.py] *)

Module PngToC.

Local Open Scope Z_scope.

(** An image after [img.convert('RGB')]: its size and [getpixel((x, y))]. *)
Record image : Type := {
  width : nat;
  height : nat;
  getpixel : nat -> nat -> Z * Z * Z
}.

(** Lines 37-40: the packed value of one pixel. *)
Definition rgb565 (r g b : Z) : Z :=
  let r5 := Z.land (Z.shiftr r 3) 0x1F in
  let g6 := Z.land (Z.shiftr g 2) 0x3F in
  let b5 := Z.land (Z.shiftr b 3) 0x1F in
  Z.lor (Z.lor (Z.shiftl r5 11) (Z.shiftl g6 5)) b5.

(** Lines 42-43: the two tokens appended for one pixel. *)
Definition pixel_tokens (r g b : Z) : list text :=
  let v := rgb565 r g b in
  [ str "0x" ++ fmt_02x (Z.land v 0xFF);
    str "0x" ++ fmt_02x (Z.land (Z.shiftr v 8) 0xFF) ].

(** Lines 32-43: [pixel_data] after the two loops. *)
Definition pixel_data (img : image) : list text :=
  flat_map (fun y =>
    flat_map (fun x => let '(r, g, b) := getpixel img x y in pixel_tokens r g b)
             (seq 0 (width img)))
    (seq 0 (height img)).

(** Lines 47-52: the text written for the row that starts at index [i]. *)
Definition row_line (pixel_data : list text) (i : nat) : text :=
  let row := slice pixel_data i (i + 16) in
  str "  " ++ join (str ", ") row ++
  (if (i + 16 <? length pixel_data)%nat then str "," ++ [nl] else [nl]).

(** Lines 46-52. *)
Definition rows (pixel_data : list text) : text :=
  concat (map (row_line pixel_data) (range_step (length pixel_data) 16)).

(** Lines 24-27. *)
Definition header : text :=
  str "#include " ++ [dquote] ++ str "lvgl.h" ++ [dquote] ++ [nl; nl] ++
  str "#ifndef LV_ATTRIBUTE_MEM_ALIGN" ++ [nl] ++
  str "#define LV_ATTRIBUTE_MEM_ALIGN" ++ [nl] ++
  str "#endif" ++ [nl; nl].

(** Line 30. *)
Definition array_open (var_name : text) : text :=
  str "const LV_ATTRIBUTE_MEM_ALIGN uint8_t " ++ var_name ++ str "_map[] = {" ++ [nl].

(** Line 54. *)
Definition array_close : text := str "};" ++ [nl; nl].

(** Lines 57-64. *)
Definition descriptor (img : image) (var_name : text) (data_size : nat) : text :=
  str "const lv_img_dsc_t " ++ var_name ++ str " = {" ++ [nl] ++
  str "  .header.always_zero = 0," ++ [nl] ++
  str "  .header.w = " ++ dec (width img) ++ str "," ++ [nl] ++
  str "  .header.h = " ++ dec (height img) ++ str "," ++ [nl] ++
  str "  .data_size = " ++ dec data_size ++ str "," ++ [nl] ++
  str "  .header.cf = LV_IMG_CF_TRUE_COLOR," ++ [nl] ++
  str "  .data = " ++ var_name ++ str "_map," ++ [nl] ++
  str "};" ++ [nl].

(** [convert_png_to_c]: the text written to [output_path]. *)
Definition convert_png_to_c (img : image) (var_name : text) : text :=
  let pd := pixel_data img in
  header ++ array_open var_name ++ rows pd ++ array_close ++
  descriptor img var_name (length pd).

(** The packed pixel stream of an image: per pixel, in row-major order,
    the low byte and then the high byte of its RGB565 value. *)
Definition packed_stream (img : image) : list Z :=
  flat_map (fun y =>
    flat_map (fun x => let '(r, g, b) := getpixel img x y in
                       let v := rgb565 r g b in
                       [Z.land v 0xFF; Z.land (Z.shiftr v 8) 0xFF])
             (seq 0 (width img)))
    (seq 0 (height img)).

End PngToC.

Import CToBin PngToC.

(** ** Auxiliary definitions used in the statements *)

(** The lower-case hexadecimal digit of a value in 0..15. *)
Definition hexdig (n : Z) : ascii := nth (Z.to_nat n) (str "0123456789abcdef") "0"%char.

(** The fields of a packed value, widened to 8 bits by a left shift, as
    the re-encoding property words it: 5 bits of red from bit 11, 6 bits of
    green from bit 5, 5 bits of blue from bit 0 (the repository itself never
    unpacks a value). *)
Definition widen565 (v : Z) : Z * Z * Z :=
  let r5 := Z.land (Z.shiftr v 11) 0x1F in
  let g6 := Z.land (Z.shiftr v 5) 0x3F in
  let b5 := Z.land v 0x1F in
  (Z.shiftl r5 3, Z.shiftl g6 2, Z.shiftl b5 3)%Z.

(** The 2x1 image with a red and a green pixel. *)
Definition red_green : image :=
  {| width := 2; height := 1;
     getpixel := fun x _ => if (x =? 0)%nat then (255, 0, 0)%Z else (0, 255, 0)%Z |}.

(** The next character, if any, is outside the class. *)
Definition stops (p : ascii -> bool) (s : text) : bool :=
  match s with
  | [] => true
  | c :: _ => negb (p c)
  end.

(** An occurrence of [0x] and two hexadecimal digits starts the text. *)
Definition occurs_at (s : text) : bool :=
  match s with
  | a :: b :: c :: d :: _ => Ascii.eqb "0" a && Ascii.eqb "x" b && is_hex c && is_hex d
  | _ => false
  end.

(** No occurrence starts inside [g] when [g] is followed by [follow]. *)
Definition quiet (g follow : text) : bool :=
  forallb (fun i => negb (occurs_at (skipn i (g ++ follow)))) (seq 0 (length g)).

Definition token (h : ascii * ascii) : text := "0"%char :: "x"%char :: [fst h; snd h].

(** A text cut at its occurrences: each item is the text before an
    occurrence and the two digits of the occurrence; [tail] follows the
    last one. *)
Fixpoint interleave (items : list (text * (ascii * ascii))) (tail : text) : text :=
  match items with
  | [] => tail
  | (g, h) :: rest => g ++ token h ++ interleave rest tail
  end.

Fixpoint well_cut (items : list (text * (ascii * ascii))) (tail : text) : bool :=
  match items with
  | [] => quiet tail []
  | (g, h) :: rest =>
      quiet g (token h) && is_hex (fst h) && is_hex (snd h) && well_cut rest tail
  end.

Definition hex_value (c : ascii) : Z :=
  match hex_digit c with Some d => d | None => 0%Z end.

Definition byte_of (h : ascii * ascii) : Z := (16 * hex_value (fst h) + hex_value (snd h))%Z.

(** The text that follows a literal starts with a character that cannot
    continue it. *)
Definition delimited (rest : text) : bool := stops is_word rest.

(** The digits of every occurrence, by position of its first character. *)
Fixpoint occurrences (s : text) : list text :=
  match s with
  | [] => []
  | _ :: s' =>
      (if occurs_at s then [firstn 2 (skipn 2 s)] else []) ++ occurrences s'
  end.

(** No occurrence starts on the last digit of another one (as the second
    does in [0x10xab]); occurrences cannot overlap in any other way. *)
Fixpoint overlap_free (s : text) : bool :=
  match s with
  | [] => true
  | _ :: s' => negb (occurs_at s && occurs_at (skipn 3 s)) && overlap_free s'
  end.

(** A declaration of the shape the decoder looks for: the white space
    between its parts, the optional alignment attribute (with the white
    space after it), the element type, the identifier and the text between
    the braces. *)
Record decl : Type := {
  ws_static : text;
  ws_const : text;
  attr : option text;
  bits16 : bool;
  ws_type : text;
  ident : text;
  ws_eq1 : text;
  ws_eq2 : text;
  body : text
}.

Definition render (d : decl) : text :=
  str "static" ++ ws_static d ++ str "const" ++ ws_const d ++
  match attr d with
  | Some w => str "LV_ATTRIBUTE_MEM_ALIGN" ++ w
  | None => []
  end ++
  str "uint" ++ (if bits16 d then str "16" else str "8") ++ str "_t" ++ ws_type d ++
  ident d ++ str "[]" ++ ws_eq1 d ++ str "=" ++ ws_eq2 d ++
  str "{" ++ body d ++ str "}".

Definition nonempty (w : text) : bool := negb (length w =? 0)%nat.

(** White space, at least one character. *)
Definition gap (w : text) : bool := nonempty w && forallb is_space w.

Definition valid (d : decl) : bool :=
  gap (ws_static d) && gap (ws_const d)
  && match attr d with Some w => gap w | None => true end
  && gap (ws_type d)
  && (nonempty (ident d) && forallb is_word (ident d))
  && forallb is_space (ws_eq1 d) && forallb is_space (ws_eq2 d)
  && (nonempty (body d) && forallb not_rbrace (body d)).

(** The identifier is at least one word character followed by [_map]. *)
Definition has_map_suffix (name : text) : bool :=
  (5 <=? length name)%nat && text_eqb (skipn (length name - 4) name) (str "_map").

(** A pattern that contains the group. *)
Fixpoint sets_group (r : regex) : bool :=
  match r with
  | Grp _ => true
  | Cat a b => sets_group a || sets_group b
  | Alt a b => sets_group a && sets_group b
  | _ => false
  end.

Definition sample_decl : decl :=
  {| ws_static := [nl]; ws_const := str "  "; attr := Some (str " "); bits16 := true;
     ws_type := [nl]; ident := str "frame1_map"; ws_eq1 := []; ws_eq2 := [nl];
     body := [nl] ++ str "0x01 , 0x02," ++ [nl] ++ str " 0xff" |}.

(** The part of both patterns after the identifier. *)
Definition after_ident : regex :=
  cat [ Lit (str "[]"); Rep is_space 0; Lit (str "="); Rep is_space 0; Lit (str "{");
        Grp (Rep not_rbrace 1); Lit (str "}") ].

(** The part of both patterns before the identifier. *)
Definition before_ident (r : regex) : regex :=
  cat [ Lit (str "static"); Rep is_space 1; Lit (str "const"); Rep is_space 1;
        Opt (Cat (Lit (str "LV_ATTRIBUTE_MEM_ALIGN")) (Rep is_space 1));
        Lit (str "uint"); Alt (Lit (str "8")) (Lit (str "16")); Lit (str "_t");
        Rep is_space 1; r ].

Definition prefix_text (d : decl) (t : text) : text :=
  str "static" ++ ws_static d ++ str "const" ++ ws_const d ++
  match attr d with
  | Some w => str "LV_ATTRIBUTE_MEM_ALIGN" ++ w
  | None => []
  end ++
  str "uint" ++ (if bits16 d then str "16" else str "8") ++ str "_t" ++ ws_type d ++ t.

(** Two worlds offer the same files, outcomes of writing and printing, and
    listings. *)
Definition same_env (w1 w2 : world) : Prop :=
  files w1 = files w2 /\ on_write w1 = on_write w2
  /\ print_fault w1 = print_fault w2 /\ listing w1 = listing w2.

(** [w2] has at least the console lines and the written files of [w1]. *)
Definition extends (w1 w2 : world) : Prop :=
  (forall p, In p (console w1) -> In p (console w2))
  /\ (forall x, In x (written w1) -> In x (written w2)).

(** The world [w] after the files [dw] and the lines [dc] have been added. *)
Definition grow (w : world) (dw : list (text * list Z)) (dc : list printed) : world :=
  {| files := files w; on_write := on_write w; print_fault := print_fault w;
     listing := listing w; written := written w ++ dw; console := console w ++ dc |}.

(** The lines printed inside the [try] block of [convert_c_to_bin]: line 45
    (through the call of line 60) and line 73. *)
Definition in_try (p : printed) : bool :=
  match p with
  | PExtracted _ _ | PCreated _ _ => true
  | _ => false
  end.

(** Lines 63-64 for a source and an output directory given as paths. *)
Definition bin_path_for (output_dir c_path : ppath) : text :=
  path_str (truediv output_dir (pp_stem c_path ++ str ".bin")).

(** [convert_c_to_bin] returns [True] for the file [f]. *)
Definition converts (w : world) (output_dir f : ppath) : bool :=
  match fst (convert_c_to_bin (OfPath f) (OfPath output_dir) w) with
  | Ok true => true
  | _ => false
  end.


(** The lines of lines 97-102, of lines 111-114 and of lines 122-132. *)
Definition banner (input_dir output_dir : ppath) : list printed :=
  [ PLine rule; PLine (str "LVGL C Array to BIN Converter"); PLine rule;
    PInputDir (path_str input_dir); POutputDir (path_str output_dir); PLine [] ].

Definition found (c_files : list ppath) : list printed :=
  PFoundCount (length c_files) :: map (fun f => PFoundName (pp_name f)) c_files
  ++ [PLine []].

Definition closing (success_count total : nat) (output_dir : ppath) : list printed :=
  [ PLine []; PLine rule; PTally success_count total; PLine rule; PLine [];
    PLine (str "Next steps:"); PCopyFrom (path_str output_dir);
    PLine (str "2. Create a 'frames' folder on the SD card root");
    PLine (str "3. Place all frame*.bin files in /frames/ directory on SD card");
    PLine (str "4. Rebuild and flash your ESP32 project"); PLine [] ].

(** The files that the scan of a directory gives, none when it raises. *)
Definition discovered (w : world) (input_dir : ppath) : list ppath :=
  match listing w (path_str input_dir) with
  | Ok c_files => c_files
  | Raise _ => []
  end.

(** A directory with a good frame, a frame without an array, a frame
    without tokens, a frame that cannot be read, a frame that vanished after
    the scan and another good frame. *)
Definition sample_world : world :=
  {| files := fun p =>
       if text_eqb p (str "in/frame1.c")
       then Readable (str "static const uint8_t frame1_map[] = { 0x01, 0x02, 0xff };")
       else if text_eqb p (str "in/frame2.c") then Readable (str "int x;")
       else if text_eqb p (str "in/frame3.c")
       then Readable (str "static const uint8_t frame3_map[] = { 1, 2 };")
       else if text_eqb p (str "in/frame4.c") then Unreadable (OSError (str "Permission denied"))
       else if text_eqb p (str "in/frame6.c")
       then Readable (str "static const uint8_t frame6_map[] = { 0x10 };")
       else Absent;
     on_write := fun _ => Written;
     print_fault := fun _ => None;
     listing := fun dir =>
       if text_eqb dir (str "in")
       then Ok (map (fun name => truediv (Path (str "in")) name)
                    [str "frame1.c"; str "frame2.c"; str "frame3.c";
                     str "frame4.c"; str "frame5.c"; str "frame6.c"])
       else Ok [];
     written := [];
     console := [] |}.



(** A good frame and an output file that the disk stops after two bytes. *)
Definition full_disk_world : world :=
  {| files := fun _ =>
       Readable (str "static const uint8_t frame1_map[] = { 0x01, 0x02, 0xff };");
     on_write := fun _ => WriteBroken 2 (OSError (str "No space left on device"));
     print_fault := fun _ => None;
     listing := fun _ => Ok [truediv (Path (str "in")) (str "frame1.c")];
     written := [];
     console := [] |}.

(** A scanner for the shape [c], white space, [c], which every text with
    [static\s+const] in it contains (the last letter of [static], the white
    space, the first letter of [const]). *)
Inductive cstate : Type := Idle | SawC | SawCSpace | Hit.

Definition cstep (q : cstate) (c : ascii) : cstate :=
  match q with
  | Hit => Hit
  | _ =>
      if Ascii.eqb "c" c then match q with SawCSpace => Hit | _ => SawC end
      else if is_space c then match q with Idle => Idle | _ => SawCSpace end
      else Idle
  end.

Definition crun (q : cstate) (s : text) : cstate := fold_left cstep s q.

(** The scanner is not in the middle of a white-space run after [c]. *)
Definition calm (q : cstate) : bool :=
  match q with Idle | SawC => true | _ => false end.

Definition no_space (s : text) : bool := forallb (fun c => negb (is_space c)) s.

Definition identifier (s : text) : bool := nonempty s && forallb is_word s.

(** The two digits written for a byte. *)
Definition hexpair (x : Z) : ascii * ascii := (hexdig (x / 16), hexdig (x mod 16)).

(** The declaration written by line 30 of [png_to_c.py], with [static]
    and a space put in front of it. *)
Definition encoder_decl (var_name initializer : text) : decl :=
  {| ws_static := str " "; ws_const := str " "; attr := Some (str " ");
     bits16 := false; ws_type := str " "; ident := var_name ++ str "_map";
     ws_eq1 := str " "; ws_eq2 := str " "; body := initializer |}.

(** The text of [convert_png_to_c] with [static ] inserted before the
    array declaration. *)
Definition with_static (img : image) (var_name : text) : text :=
  let pd := pixel_data img in
  header ++ str "static " ++ array_open var_name ++ rows pd ++ array_close ++
  descriptor img var_name (length pd).

(** A fixed piece that brings the scanner back to [Idle] from any state
    other than [Hit]. *)
Definition resets (s : text) : bool :=
  match crun Idle s, crun SawC s, crun SawCSpace s with
  | Idle, Idle, Idle => true
  | _, _, _ => false
  end.

(** The fixed pieces of the encoder's text, between the variable name, the
    rows and the numbers. *)
Definition piece_open : text := header ++ str "const LV_ATTRIBUTE_MEM_ALIGN uint8_t ".
Definition piece_brace : text := str "_map[] = {" ++ [nl].
Definition piece_desc : text := array_close ++ str "const lv_img_dsc_t ".
Definition piece_w : text :=
  str " = {" ++ [nl] ++ str "  .header.always_zero = 0," ++ [nl] ++ str "  .header.w = ".
Definition piece_h : text := str "," ++ [nl] ++ str "  .header.h = ".
Definition piece_size : text := str "," ++ [nl] ++ str "  .data_size = ".
Definition piece_data : text :=
  str "," ++ [nl] ++ str "  .header.cf = LV_IMG_CF_TRUE_COLOR," ++ [nl] ++ str "  .data = ".
Definition piece_end : text := str "_map," ++ [nl] ++ str "};" ++ [nl].

(** ** The rest of the two scripts *)

(** [s.startswith(p)] and [s.endswith(p)]. *)
Definition starts_with (p s : text) : bool :=
  match lit_match p s with Some _ => true | None => false end.

Definition ends_with (p s : text) : bool :=
  (length p <=? length s)%nat && text_eqb (skipn (length s - length p) s) p.

Definition no_slash (s : text) : bool := forallb (fun c => negb (Ascii.eqb c "/")) s.

(** [os.path.join(a, b)] on POSIX. *)
Definition path_join (a b : text) : text :=
  if starts_with (str "/") b then b
  else if (length a =? 0)%nat || ends_with (str "/") a then a ++ b
  else a ++ str "/" ++ b.

(** The names that [glob('frame*.c')] selects among the entries of a
    directory (line 105 of [c_to_bin.py]). *)
Definition glob_frame (name : text) : bool :=
  no_slash name && starts_with (str "frame") name && ends_with (str ".c") name
  && (7 <=? length name)%nat.


(** The files that one call of [convert_c_to_bin] adds. *)
Definition produced (w : world) (output_dir c_file : ppath) : list (text * list Z) :=
  skipn (length (written w))
        (written (snd (convert_c_to_bin (OfPath c_file) (OfPath output_dir) w))).

(** The lines that one call of [convert_c_to_bin] prints. *)
Definition reported (w : world) (output_dir c_file : ppath) : list printed :=
  skipn (length (console w))
        (console (snd (convert_c_to_bin (OfPath c_file) (OfPath output_dir) w))).

(** The tokens the encoder's format gives to a sequence of bytes
    (line 42 of [png_to_c.py]). *)
Definition byte_tokens (bs : list Z) : list text :=
  map (fun b => str "0x" ++ fmt_02x b) bs.

(** [c.upper()] on a hexadecimal digit. *)
Definition upper_hex (c : ascii) : ascii :=
  if between 97 102 c then ascii_of_nat (code c - 32) else c.

Module PngScript.

(** What [Image.open] finds at a path. *)
Inductive picture : Type :=
| NoFile
| BadImage (e : exn)
| Picture (img : image).

Inductive shown : Type :=
| SConverted (png_path output_path : text)
| SSize (w h data : nat)
| SWarning (png_file : text).

(** [pictures] is what the run can open, [c_fault] the error (if any)
    that opening a given output file for writing raises; [c_files] and
    [lines] are what the run writes and prints, oldest first. *)
Record studio : Type := {
  pictures : text -> picture;
  c_fault : text -> option exn;
  c_files : list (text * text);
  lines : list shown
}.

Definition show (st : studio) (l : shown) : studio :=
  {| pictures := pictures st; c_fault := c_fault st; c_files := c_files st;
     lines := lines st ++ [l] |}.

Definition write_c (st : studio) (output_path content : text) : studio :=
  {| pictures := pictures st; c_fault := c_fault st;
     c_files := c_files st ++ [(output_path, content)]; lines := lines st |}.

(** [convert_png_to_c(png_path, output_path, var_name)] with its effects:
    nothing in it catches an exception. *)
Definition convert_png_to_c_io (st : studio) (png_path output_path var_name : text)
    : result unit * studio :=
  match pictures st png_path with
  | NoFile => (Raise (OSError (str "No such file or directory: " ++ png_path)), st)
  | BadImage e => (Raise e, st)
  | Picture img =>
      match c_fault st output_path with
      | Some e => (Raise e, st)
      | None =>
          let st1 := write_c st output_path (convert_png_to_c img var_name) in
          let st2 := show st1 (SConverted png_path output_path) in
          (Ok tt, show st2 (SSize (width img) (height img) (length (pixel_data img))))
      end
  end.

(** Lines 75-77. *)
Definition png_file (img_dir : text) (i : nat) : text :=
  path_join img_dir (str "anim_frame_" ++ dec i ++ str ".png").

Definition c_file (img_dir : text) (i : nat) : text :=
  path_join img_dir (str "anim_frame_" ++ dec i ++ str ".c").

Definition var_name (i : nat) : text := str "anim_frame_" ++ dec i.

(** Lines 74-82: the loop over the frames; an exception ends it. *)
Fixpoint convert_frames (st : studio) (img_dir : text) (frames : list nat)
    : result unit * studio :=
  match frames with
  | [] => (Ok tt, st)
  | i :: rest =>
      match pictures st (png_file img_dir i) with
      | NoFile => convert_frames (show st (SWarning (png_file img_dir i))) img_dir rest
      | _ =>
          match convert_png_to_c_io st (png_file img_dir i) (c_file img_dir i) (var_name i) with
          | (Raise e, st1) => (Raise e, st1)
          | (Ok _, st1) => convert_frames st1 img_dir rest
          end
      end
  end.

(** Line 72. *)
Definition images_dir (base_dir : text) : text :=
  path_join (path_join (path_join base_dir (str "components")) (str "lvgl_ui"))
            (str "images").

(** Lines 69-82: the body of the script, from the project directory. *)
Definition script (st : studio) (base_dir : text) : result unit * studio :=
  convert_frames st (images_dir base_dir) (seq 0 3).

(** The exception that frame [i] raises, if any. *)
Definition frame_error (st : studio) (img_dir : text) (i : nat) : option exn :=
  match pictures st (png_file img_dir i) with
  | NoFile => None
  | BadImage e => Some e
  | Picture _ => c_fault st (c_file img_dir i)
  end.

(** The file that frame [i] gives when nothing is raised. *)
Definition frame_output (st : studio) (img_dir : text) (i : nat) : list (text * text) :=
  match pictures st (png_file img_dir i) with
  | Picture img => [(c_file img_dir i, convert_png_to_c img (var_name i))]
  | _ => []
  end.

(** The lines that frame [i] gives when nothing is raised. *)
Definition frame_lines (st : studio) (img_dir : text) (i : nat) : list shown :=
  match pictures st (png_file img_dir i) with
  | Picture img =>
      [SConverted (png_file img_dir i) (c_file img_dir i);
       SSize (width img) (height img) (length (pixel_data img))]
  | NoFile => [SWarning (png_file img_dir i)]
  | BadImage _ => []
  end.

(** Frames 0 and 2 are there, frame 1 is not. *)
Definition sample_studio : studio :=
  {| pictures := fun p =>
       if text_eqb p (str "/p/components/lvgl_ui/images/anim_frame_0.png")
       then Picture red_green
       else if text_eqb p (str "/p/components/lvgl_ui/images/anim_frame_2.png")
       then Picture red_green
       else NoFile;
     c_fault := fun _ => None; c_files := []; lines := [] |}.


End PngScript.

(** * Properties *)

(** ** Bit arithmetic *)

Section Bits.
Local Open Scope Z_scope.

Lemma land_31 a : Z.land a 31 = a mod 32.
Proof. change 31 with (Z.ones 5). now rewrite Z.land_ones. Qed.

Lemma land_63 a : Z.land a 63 = a mod 64.
Proof. change 63 with (Z.ones 6). now rewrite Z.land_ones. Qed.

Lemma land_255 a : Z.land a 255 = a mod 256.
Proof. change 255 with (Z.ones 8). now rewrite Z.land_ones. Qed.

Lemma lor_shiftl_add hi lo n :
  0 <= n -> 0 <= lo < 2 ^ n -> Z.lor (Z.shiftl hi n) lo = hi * 2 ^ n + lo.
Proof.
  intros Hn Hlo.
  rewrite <- Z.shiftl_mul_pow2 by assumption.
  assert (Hd : Z.land (Z.shiftl hi n) lo = 0).
  { apply Z.bits_inj'. intros m Hm.
    rewrite Z.land_spec, Z.bits_0.
    destruct (Z.lt_ge_cases m n) as [Hlt | Hge].
    - now rewrite Z.shiftl_spec_low.
    - rewrite <- (Z.mod_small lo (2 ^ n)) by assumption.
      rewrite Z.mod_pow2_bits_high by lia.
      apply andb_false_r. }
  rewrite <- Z.lxor_lor by assumption.
  symmetry. now apply Z.add_nocarry_lxor.
Qed.

Lemma pack_fields r5 g6 b5 :
  0 <= r5 -> 0 <= g6 < 64 -> 0 <= b5 < 32 ->
  Z.lor (Z.lor (Z.shiftl r5 11) (Z.shiftl g6 5)) b5 = r5 * 2048 + g6 * 32 + b5.
Proof.
  intros Hr Hg Hb.
  assert (E : Z.lor (Z.shiftl r5 11) (Z.shiftl g6 5) = Z.shiftl (r5 * 64 + g6) 5).
  { rewrite <- (lor_shiftl_add r5 (n := 6)) by (simpl; lia).
    rewrite Z.shiftl_lor, Z.shiftl_shiftl by lia. reflexivity. }
  rewrite E, lor_shiftl_add by (simpl; lia).
  change (2 ^ 5) with 32. lia.
Qed.

Lemma rgb565_sum r g b :
  rgb565 r g b = (r / 8) mod 32 * 2048 + (g / 4) mod 64 * 32 + (b / 8) mod 32.
Proof.
  unfold rgb565.
  rewrite !land_31, land_63, !Z.shiftr_div_pow2 by lia.
  change (2 ^ 3) with 8. change (2 ^ 2) with 4.
  apply pack_fields.
  - apply Z.mod_pos_bound; lia.
  - apply Z.mod_pos_bound; lia.
  - apply Z.mod_pos_bound; lia.
Qed.

Lemma rgb565_range r g b : 0 <= rgb565 r g b < 65536.
Proof.
  rewrite rgb565_sum.
  pose proof (Z.mod_pos_bound (r / 8) 32).
  pose proof (Z.mod_pos_bound (g / 4) 64).
  pose proof (Z.mod_pos_bound (b / 8) 32).
  lia.
Qed.

End Bits.

(** C2: for 8-bit channels the packed value is
    [((r >> 3) << 11) | ((g >> 2) << 5) | (b >> 3)]; each shift is the floor
    of a division (truncation: the pixel (7, 3, 7) packs to 0), the reduced
    channels have 5, 6 and 5 bits, and red sits in the most significant
    bits. *)
Theorem rgb565_is_shift_truncation (r g b : Z)
    (Hr : (0 <= r < 256)%Z) (Hg : (0 <= g < 256)%Z) (Hb : (0 <= b < 256)%Z) :
  (rgb565 r g b
     = Z.lor (Z.lor (Z.shiftl (Z.shiftr r 3) 11) (Z.shiftl (Z.shiftr g 2) 5))
             (Z.shiftr b 3)
   /\ Z.shiftr r 3 = r / 8 /\ Z.shiftr g 2 = g / 4 /\ Z.shiftr b 3 = b / 8
   /\ 0 <= r / 8 < 32 /\ 0 <= g / 4 < 64 /\ 0 <= b / 8 < 32
   /\ rgb565 r g b = (r / 8) * 2048 + (g / 4) * 32 + b / 8
   /\ 0 <= rgb565 r g b < 65536
   /\ rgb565 7 3 7 = 0)%Z.
Proof.
  assert (Er : (Z.shiftr r 3 = r / 8)%Z) by (now rewrite Z.shiftr_div_pow2 by lia).
  assert (Eg : (Z.shiftr g 2 = g / 4)%Z) by (now rewrite Z.shiftr_div_pow2 by lia).
  assert (Eb : (Z.shiftr b 3 = b / 8)%Z) by (now rewrite Z.shiftr_div_pow2 by lia).
  assert (Br : (0 <= r / 8 < 32)%Z) by (Z.div_mod_to_equations; lia).
  assert (Bg : (0 <= g / 4 < 64)%Z) by (Z.div_mod_to_equations; lia).
  assert (Bb : (0 <= b / 8 < 32)%Z) by (Z.div_mod_to_equations; lia).
  assert (Es : (rgb565 r g b = (r / 8) * 2048 + (g / 4) * 32 + b / 8)%Z).
  { rewrite rgb565_sum. rewrite !Z.mod_small by assumption. reflexivity. }
  repeat split; try assumption; try lia; try (vm_compute; reflexivity).
  unfold rgb565. rewrite !land_31, land_63, Er, Eg, Eb.
  rewrite !Z.mod_small by assumption. reflexivity.
Qed.

Lemma rgb565_is_shift_truncation_witness :
  ((0 <= 200 < 256) /\ (0 <= 100 < 256) /\ (0 <= 50 < 256))%Z /\
  rgb565 200 100 50 = (200 / 8 * 2048 + 100 / 4 * 32 + 50 / 8)%Z.
Proof.
  split; [lia|].
  pose proof (@rgb565_is_shift_truncation 200 100 50
                ltac:(lia) ltac:(lia) ltac:(lia)) as T.
  destruct T as (_ & _ & _ & _ & _ & _ & _ & E & _).
  exact E.
Defined.

(** C9: unpacking the three fields of a 16-bit value, widening them by left
    shifts and packing them again gives the value back. *)
Theorem rgb565_reencode_stable (v : Z) (Hv : (0 <= v < 65536)%Z) :
  let '(r, g, b) := widen565 v in rgb565 r g b = v.
Proof.
  unfold widen565. rewrite rgb565_sum.
  rewrite !land_31, land_63, !Z.shiftr_div_pow2, !Z.shiftl_mul_pow2 by lia.
  change (2 ^ 11)%Z with 2048%Z. change (2 ^ 5)%Z with 32%Z.
  change (2 ^ 3)%Z with 8%Z. change (2 ^ 2)%Z with 4%Z.
  rewrite !Z.div_mul by lia.
  rewrite !Z.mod_mod by lia.
  Z.div_mod_to_equations. lia.
Qed.

Lemma rgb565_reencode_stable_witness :
  (0 <= 0xABCD < 65536)%Z /\
  (let '(r, g, b) := widen565 0xABCD in rgb565 r g b = 0xABCD)%Z.
Proof. split; [lia|]. apply (@rgb565_reencode_stable 0xABCD%Z). lia. Defined.

(** ** Formatting of bytes *)

Lemma fmt_02x_table :
  forallb (fun n => text_eqb (fmt_02x (Z.of_nat n))
                             [hexdig (Z.of_nat n / 16); hexdig (Z.of_nat n mod 16)])
          (seq 0 256) = true.
Proof. vm_compute. reflexivity. Qed.

Lemma fmt_02x_byte (x : Z) :
  (0 <= x < 256)%Z -> fmt_02x x = [hexdig (x / 16); hexdig (x mod 16)].
Proof.
  intros Hx.
  pose proof fmt_02x_table as T.
  rewrite forallb_forall in T.
  specialize (T (Z.to_nat x)).
  rewrite Z2Nat.id in T by lia.
  assert (Hin : In (Z.to_nat x) (seq 0 256)) by (apply in_seq; lia).
  specialize (T Hin). unfold text_eqb in T.
  destruct (list_eq_dec ascii_dec _ _) as [E | _]; [exact E | discriminate].
Qed.

Lemma low_byte_range (v : Z) : (0 <= Z.land v 255 < 256)%Z.
Proof. rewrite land_255. apply Z.mod_pos_bound. lia. Qed.

(** C3: the two tokens of a pixel are the low byte and then the high byte
    of its packed value, each as [0x] and two lower-case hexadecimal digits;
    a pixel packed as [0xABCD] gives [0xcd] then [0xab], and the 2x1
    red/green image gives [0x00, 0xf8, 0xe0, 0x07]. *)
Theorem tokens_low_byte_first (r g b : Z) (H : rgb565 r g b = 0xABCD%Z) :
  pixel_tokens r g b = [str "0xcd"; str "0xab"]
  /\ (forall r' g' b' : Z,
        let v := rgb565 r' g' b' in
        let lo := (v mod 256)%Z in
        let hi := (v / 256)%Z in
        pixel_tokens r' g' b'
          = [ str "0x" ++ [hexdig (lo / 16); hexdig (lo mod 16)];
              str "0x" ++ [hexdig (hi / 16); hexdig (hi mod 16)] ])
  /\ pixel_data red_green = [str "0x00"; str "0xf8"; str "0xe0"; str "0x07"].
Proof.
  split; [|split].
  - unfold pixel_tokens. rewrite H. vm_compute. reflexivity.
  - intros r' g' b' v lo hi. unfold pixel_tokens. fold v.
    pose proof (rgb565_range r' g' b') as Hv. fold v in Hv.
    assert (Ehi : Z.land (Z.shiftr v 8) 255 = hi).
    { rewrite land_255, Z.shiftr_div_pow2 by lia. change (2 ^ 8)%Z with 256%Z.
      unfold hi. Z.div_mod_to_equations. lia. }
    assert (Elo : Z.land v 255 = lo) by apply land_255.
    rewrite Ehi, Elo.
    rewrite !fmt_02x_byte; [reflexivity | |].
    + unfold hi. Z.div_mod_to_equations. lia.
    + unfold lo. apply Z.mod_pos_bound. lia.
  - vm_compute. reflexivity.
Qed.

Lemma tokens_low_byte_first_witness :
  rgb565 0xA8 0x78 0x68 = 0xABCD%Z /\
  pixel_tokens 0xA8 0x78 0x68 = [str "0xcd"; str "0xab"].
Proof.
  split; [reflexivity|].
  apply (@tokens_low_byte_first 0xA8 0x78 0x68)%Z. reflexivity.
Defined.

(** ** Counting tokens *)

Lemma flat_map_const_length {A B} (f : A -> list B) (l : list A) (k : nat) :
  (forall a, length (f a) = k) -> length (flat_map f l) = (length l * k)%nat.
Proof.
  intros Hf. induction l as [| a l IH]; simpl; [reflexivity|].
  now rewrite length_app, Hf, IH.
Qed.

Lemma pixel_data_length (img : image) :
  length (pixel_data img) = (2 * width img * height img)%nat.
Proof.
  unfold pixel_data.
  rewrite (flat_map_const_length _ _ (k := (width img * 2)%nat)).
  - rewrite length_seq. lia.
  - intros y. rewrite (flat_map_const_length _ _ (k := 2%nat)).
    + now rewrite length_seq.
    + intros x. destruct (getpixel img x y) as [[r g] b]. reflexivity.
Qed.

(** C4: the encoder emits [2 * W * H] tokens and writes that number as the
    [data_size] field of the descriptor. *)
Theorem token_count_and_data_size (img : image) (var_name : text) :
  length (pixel_data img) = (2 * width img * height img)%nat
  /\ convert_png_to_c img var_name
     = header ++ array_open var_name ++ rows (pixel_data img) ++ array_close ++
       descriptor img var_name (2 * width img * height img)
  /\ exists before after : text,
       descriptor img var_name (2 * width img * height img)
       = before ++ str "  .data_size = " ++ dec (2 * width img * height img)
           ++ str "," ++ [nl] ++ after.
Proof.
  split; [apply pixel_data_length|]. split.
  - unfold convert_png_to_c. now rewrite pixel_data_length.
  - unfold descriptor.
    exists (str "const lv_img_dsc_t " ++ var_name ++ str " = {" ++ [nl] ++
            str "  .header.always_zero = 0," ++ [nl] ++
            str "  .header.w = " ++ dec (width img) ++ str "," ++ [nl] ++
            str "  .header.h = " ++ dec (height img) ++ str "," ++ [nl]).
    eexists. rewrite <- !app_assoc. reflexivity.
Qed.

(** ** Rows of sixteen tokens *)

Lemma firstn_plus {A} (l : list A) (n m : nat) :
  firstn (n + m) l = firstn n l ++ firstn m (skipn n l).
Proof.
  revert l. induction n as [| n IH]; intros l; simpl; [reflexivity|].
  destruct l as [| a l]; simpl.
  - now rewrite firstn_nil.
  - now rewrite IH.
Qed.

Lemma chunks_concat {A} (l : list A) (c count : nat) :
  concat (map (fun k => firstn c (skipn (c * k) l)) (seq 0 count)) = firstn (c * count) l.
Proof.
  induction count as [| count IH].
  - now rewrite Nat.mul_0_r.
  - rewrite seq_S, map_app, concat_app, IH. simpl.
    rewrite app_nil_r, Nat.mul_succ_r. symmetry. apply firstn_plus.
Qed.

Lemma range_step_length (n : nat) : length (range_step n 16) = ((n + 15) / 16)%nat.
Proof.
  unfold range_step. rewrite length_map, length_seq.
  now replace (n + 16 - 1)%nat with (n + 15)%nat by lia.
Qed.

Lemma range_step_nth (n k : nat) :
  (k < (n + 15) / 16)%nat -> nth k (range_step n 16) 0%nat = (k * 16)%nat.
Proof.
  intros Hk. unfold range_step.
  replace (n + 16 - 1)%nat with (n + 15)%nat by lia.
  etransitivity;
    [ exact (map_nth (fun k => k * 16)%nat (seq 0 ((n + 15) / 16)) 0%nat k) |].
  now rewrite seq_nth.
Qed.

Lemma line_count_bounds (n : nat) :
  (16 * ((n + 15) / 16) <= n + 15 < 16 * ((n + 15) / 16) + 16)%nat.
Proof.
  pose proof (Nat.div_mod_eq (n + 15) 16) as E.
  pose proof (Nat.mod_upper_bound (n + 15) 16) as B.
  lia.
Qed.

(** C8: the tokens are written in lines of sixteen; the last line holds the
    remainder (sixteen tokens when the count is a multiple of sixteen); every
    line but the last ends with a comma before its newline. *)
Theorem rows_of_sixteen (img : image) :
  let pd := pixel_data img in
  let n := length pd in
  let lines := map (row_line pd) (range_step n 16) in
  rows pd = concat lines
  /\ length lines = ((n + 15) / 16)%nat
  /\ (forall k : nat, (k < length lines)%nat ->
        let toks := firstn 16 (skipn (16 * k) pd) in
        nth k lines [] = str "  " ++ join (str ", ") toks ++
                         (if (S k <? length lines)%nat then str "," ++ [nl] else [nl])
        /\ ((S k < length lines)%nat -> length toks = 16%nat)
        /\ (S k = length lines ->
            length toks = (n - 16 * k)%nat /\ (1 <= length toks <= 16)%nat
            /\ ((n mod 16 = 0)%nat -> length toks = 16%nat)))
  /\ concat (map (fun k => firstn 16 (skipn (16 * k) pd)) (seq 0 (length lines))) = pd.
Proof.
  intros pd n lines.
  assert (HL : length lines = ((n + 15) / 16)%nat).
  { unfold lines. now rewrite length_map, range_step_length. }
  pose proof (line_count_bounds n) as HB.
  split; [reflexivity|]. split; [exact HL|]. split.
  - intros k Hk toks. rewrite HL in *.
    assert (Hlen : length toks = Nat.min 16 (n - 16 * k)).
    { unfold toks. rewrite length_firstn, length_skipn. reflexivity. }
    split; [|split].
    + unfold lines.
      rewrite (nth_indep _ [] (row_line pd 0))
        by (now rewrite length_map, range_step_length).
      rewrite map_nth. rewrite range_step_nth by exact Hk.
      unfold row_line, slice. fold n.
      replace (k * 16 + 16 - k * 16)%nat with 16%nat by lia.
      replace (k * 16)%nat with (16 * k)%nat by lia.
      fold toks.
      destruct (Nat.ltb_spec (16 * k + 16) n) as [H1 | H1];
        destruct (Nat.ltb_spec (S k) ((n + 15) / 16)) as [H2 | H2];
        try reflexivity; lia.
    + intros Hk'. lia.
    + intros Hk'. split; [lia|]. split; [lia|].
      intros Hm. pose proof (Nat.div_mod_eq n 16) as E. lia.
  - rewrite chunks_concat. apply firstn_all2. rewrite HL. fold n. lia.
Qed.

Lemma rows_of_sixteen_witness :
  rows (pixel_data red_green) = str "  0x00, 0xf8, 0xe0, 0x07" ++ [nl].
Proof.
  destruct (rows_of_sixteen red_green) as (E & _). rewrite E. vm_compute. reflexivity.
Defined.

(** ** The matcher *)

Section Matcher.

Local Arguments Ascii.eqb : simpl never.

Lemma lit_match_app (l s : text) : lit_match l (l ++ s) = Some s.
Proof.
  induction l as [| a l IH]; simpl; [reflexivity|].
  now rewrite Ascii.eqb_refl.
Qed.

Lemma lit_match_inv (l s s' : text) : lit_match l s = Some s' -> s = l ++ s'.
Proof.
  revert s. induction l as [| a l IH]; intros s H; simpl in *.
  - now inversion H.
  - destruct s as [| b s]; [discriminate|].
    destruct (Ascii.eqb a b) eqn:E; [|discriminate].
    apply Ascii.eqb_eq in E. subst b. f_equal. now apply IH.
Qed.

Lemma lit_match_head (a c : ascii) (l s : text) :
  Ascii.eqb a c = false -> lit_match (a :: l) (c :: s) = None.
Proof. intros E. simpl. now rewrite E. Qed.

Lemma rep_match_stops (p : ascii -> bool) (s : text) :
  stops p s = true -> rep_match p 0 s = [s].
Proof.
  destruct s as [| c s]; simpl; [reflexivity|].
  intros H. apply negb_true_iff in H. now rewrite H.
Qed.

Lemma rep_match_app (p : ascii -> bool) (ws s : text) (n : nat) :
  forallb p ws = true ->
  exists tl, rep_match p n (ws ++ s) = rep_match p (n - length ws) s ++ tl.
Proof.
  revert n. induction ws as [| a ws IH]; intros n H.
  - exists []. simpl. now rewrite Nat.sub_0_r, app_nil_r.
  - simpl in H. apply andb_true_iff in H as [Ha Hws].
    destruct (IH (pred n) Hws) as [tl E].
    simpl rep_match. rewrite Ha, E.
    replace (pred n - length ws)%nat with (n - length (a :: ws))%nat by (simpl; lia).
    rewrite <- app_assoc. eauto.
Qed.

Lemma rep_match_inv (p : ascii -> bool) (n : nat) (s s' : text) :
  In s' (rep_match p n s) ->
  exists ws, s = ws ++ s' /\ forallb p ws = true /\ (n <= length ws)%nat.
Proof.
  revert n. induction s as [| a s IH]; intros n H; simpl in H.
  - destruct n; simpl in H; [|contradiction].
    destruct H as [<- | []]. exists []. repeat split. simpl. lia.
  - apply in_app_or in H as [H | H].
    + destruct (p a) eqn:Ha; [|contradiction].
      destruct (IH _ H) as (ws & -> & Hws & Hn).
      exists (a :: ws). simpl. rewrite Ha, Hws. repeat split. lia.
    + destruct n; [|contradiction].
      destruct H as [<- | []]. exists []. repeat split. simpl. lia.
Qed.

Lemma hd_error_app_some {A} (l l' : list A) (y : A) :
  hd_error l = Some y -> hd_error (l ++ l') = Some y.
Proof. destruct l; simpl; [discriminate | trivial]. Qed.

Lemma hd_error_flat_map_cons {A B} (f : A -> list B) (x : A) (l : list A) (y : B) :
  hd_error (f x) = Some y -> hd_error (flat_map f (x :: l)) = Some y.
Proof. intros H. simpl. now apply hd_error_app_some. Qed.

(** Stepping over a literal. *)
Lemma first_lit (l : text) (r : regex) (s : text) (cap : option text) :
  hd_error (run (Cat (Lit l) r) (l ++ s) cap) = hd_error (run r s cap).
Proof. simpl. rewrite lit_match_app. simpl. now rewrite app_nil_r. Qed.

(** Stepping over a greedy repetition that the rest of the pattern accepts
    at full length. *)
Lemma first_rep (p : ascii -> bool) (n : nat) (r : regex) (ws s : text)
    (cap : option text) (y : mstate) :
  forallb p ws = true -> (n <= length ws)%nat -> stops p s = true ->
  hd_error (run r s cap) = Some y ->
  hd_error (run (Cat (Rep p n) r) (ws ++ s) cap) = Some y.
Proof.
  intros Hws Hn Hs Hy. simpl.
  destruct (rep_match_app p ws s n Hws) as [tl E]. rewrite E.
  replace (n - length ws)%nat with 0%nat by lia.
  rewrite (rep_match_stops _ _ Hs). simpl.
  now apply hd_error_app_some.
Qed.

Lemma first_opt_taken (a r : regex) (s : text) (cap : option text) (y : mstate) :
  hd_error (run (Cat a r) s cap) = Some y ->
  hd_error (run (Cat (Opt a) r) s cap) = Some y.
Proof.
  simpl. intros H. rewrite flat_map_app. now apply hd_error_app_some.
Qed.

Lemma first_opt_skipped (a r : regex) (s : text) (cap : option text) :
  run a s cap = [] ->
  hd_error (run (Cat (Opt a) r) s cap) = hd_error (run r s cap).
Proof. simpl. intros ->. simpl. now rewrite app_nil_r. Qed.

Lemma first_alt_left (a b r : regex) (s : text) (cap : option text) (y : mstate) :
  hd_error (run (Cat a r) s cap) = Some y ->
  hd_error (run (Cat (Alt a b) r) s cap) = Some y.
Proof.
  simpl. intros H. rewrite flat_map_app. now apply hd_error_app_some.
Qed.

Lemma first_alt_right (a b r : regex) (s : text) (cap : option text) :
  run a s cap = [] ->
  hd_error (run (Cat (Alt a b) r) s cap) = hd_error (run (Cat b r) s cap).
Proof. simpl. now intros ->. Qed.

(** The group [([^}]+)] followed by the closing literal. *)
Lemma first_group_rep (p : ascii -> bool) (n : nat) (l body post : text)
    (cap : option text) :
  forallb p body = true -> (n <= length body)%nat -> stops p (l ++ post) = true ->
  hd_error (run (Cat (Grp (Rep p n)) (Lit l)) (body ++ l ++ post) cap)
  = Some (post, Some body).
Proof.
  intros Hb Hn Hs. simpl.
  destruct (rep_match_app p body (l ++ post) n Hb) as [tl E]. rewrite E.
  replace (n - length body)%nat with 0%nat by lia.
  rewrite (rep_match_stops _ _ Hs). simpl.
  rewrite lit_match_app. simpl.
  rewrite length_app.
  replace (length body + length (l ++ post) - length (l ++ post))%nat
    with (length body) by lia.
  rewrite firstn_app, Nat.sub_diag, firstn_all. simpl. now rewrite app_nil_r.
Qed.

Lemma search_found (r : regex) (s : text) (m : mstate) :
  match_at r s = Some m -> search r s = Some m.
Proof. intros H. destruct s; simpl; now rewrite H. Qed.

Lemma search_skip (r : regex) (c : ascii) (s : text) :
  match_at r (c :: s) = None -> search r (c :: s) = search r s.
Proof. intros H. simpl. now rewrite H. Qed.

Lemma search_none (r : regex) (s : text) :
  (forall pre suf, s = pre ++ suf -> match_at r suf = None) -> search r s = None.
Proof.
  induction s as [| c s IH]; intros H.
  - simpl. now rewrite (H [] []).
  - rewrite search_skip by (now apply (H [])).
    apply IH. intros pre suf ->. now apply (H (c :: pre)).
Qed.

Lemma run_cat_inv (a b : regex) (s : text) (cap : option text) (y : mstate) :
  In y (run (Cat a b) s cap) ->
  exists x, In x (run a s cap) /\ In y (run b (fst x) (snd x)).
Proof. simpl. intros H. apply in_flat_map in H. exact H. Qed.

Lemma run_lit_inv (l s : text) (cap : option text) (x : mstate) :
  In x (run (Lit l) s cap) -> s = l ++ fst x.
Proof.
  simpl. destruct (lit_match l s) eqn:E; [|contradiction].
  intros [<- | []]. now apply lit_match_inv.
Qed.

Lemma run_rep_inv (p : ascii -> bool) (n : nat) (s : text) (cap : option text)
    (x : mstate) :
  In x (run (Rep p n) s cap) ->
  exists ws, s = ws ++ fst x /\ forallb p ws = true /\ (n <= length ws)%nat.
Proof.
  simpl. intros H. apply in_map_iff in H as (s' & <- & H).
  now apply rep_match_inv in H.
Qed.

End Matcher.

(** ** Hexadecimal tokens *)

Section HexTokens.

Local Arguments Ascii.eqb : simpl never.
Local Arguments Nat.sub : simpl never.

Lemma match_hex (s : text) :
  match_at hex_pattern s
  = if occurs_at s then Some (skipn 4 s, Some (firstn 2 (skipn 2 s))) else None.
Proof.
  unfold match_at, hex_pattern, occurs_at.
  destruct s as [| a [| b [| c [| d s]]]]; simpl;
    try destruct (Ascii.eqb "0" a); try destruct (Ascii.eqb "x" b); simpl;
    try destruct (is_hex c); simpl; try destruct (is_hex d); simpl;
    try reflexivity.
  replace (S (S (length s)) - length s)%nat with 2%nat by lia.
  reflexivity.
Qed.

Lemma findall_nil : findall hex_pattern [] = [].
Proof. reflexivity. Qed.

Lemma findall_from_0 (r : regex) (s : text) :
  findall_from r 0 s
  = match match_at r s with
    | Some (rest, cap) =>
        match cap with Some g => g | None => [] end ::
        match s with
        | [] => []
        | _ :: s' => findall_from r (length s - length rest - 1) s'
        end
    | None => match s with
              | [] => []
              | _ :: s' => findall_from r 0 s'
              end
    end.
Proof. destruct s; reflexivity. Qed.

Lemma findall_from_skip (r : regex) (k : nat) (s : text) :
  (k <= length s)%nat -> findall_from r k s = findall_from r 0 (skipn k s).
Proof.
  revert s. induction k as [| k IH]; intros s Hk; [reflexivity|].
  destruct s as [| c s]; simpl in Hk; [lia|].
  simpl. apply IH. lia.
Qed.

Lemma findall_miss (c : ascii) (s : text) :
  occurs_at (c :: s) = false -> findall hex_pattern (c :: s) = findall hex_pattern s.
Proof.
  intros H. unfold findall. rewrite findall_from_0, match_hex, H. reflexivity.
Qed.

Lemma findall_hit (h : ascii * ascii) (rest : text) :
  is_hex (fst h) = true -> is_hex (snd h) = true ->
  findall hex_pattern (token h ++ rest) = [fst h; snd h] :: findall hex_pattern rest.
Proof.
  intros H1 H2. unfold findall. rewrite findall_from_0, match_hex.
  assert (Ho : occurs_at (token h ++ rest) = true).
  { unfold occurs_at, token. simpl. rewrite H1, H2. reflexivity. }
  rewrite Ho. unfold token. simpl.
  rewrite findall_from_skip by (simpl; lia).
  f_equal.
  replace (S (S (S (S (length rest)))) - length rest - 1)%nat with 3%nat by lia.
  reflexivity.
Qed.

Lemma occurs_at_window (a b : text) :
  (4 <= length a)%nat -> occurs_at (a ++ b) = occurs_at a.
Proof.
  destruct a as [| a1 [| a2 [| a3 [| a4 a]]]]; simpl; intros H; try lia.
  reflexivity.
Qed.

Lemma forallb_over_map {A B} (f : A -> B) (p : B -> bool) (l : list A) :
  forallb p (map f l) = forallb (fun a => p (f a)) l.
Proof. induction l as [| a l IH]; simpl; [reflexivity | now rewrite IH]. Qed.

Lemma quiet_cons (c : ascii) (g follow : text) :
  quiet (c :: g) follow = negb (occurs_at (c :: g ++ follow)) && quiet g follow.
Proof.
  unfold quiet. simpl length. rewrite <- cons_seq. simpl forallb.
  f_equal. rewrite <- seq_shift, forallb_over_map. reflexivity.
Qed.

Lemma findall_gap (g follow rest : text) :
  (4 <= length follow)%nat -> quiet g follow = true ->
  findall hex_pattern (g ++ follow ++ rest) = findall hex_pattern (follow ++ rest).
Proof.
  intros Hf. induction g as [| c g IH]; intros Hq; [reflexivity|].
  rewrite quiet_cons in Hq. apply andb_true_iff in Hq as [Hc Hg].
  apply negb_true_iff in Hc.
  simpl app. rewrite findall_miss; [now apply IH|].
  rewrite <- Hc. rewrite app_assoc.
  change (c :: (g ++ follow) ++ rest) with ((c :: g ++ follow) ++ rest).
  apply occurs_at_window. simpl. rewrite length_app. lia.
Qed.

Lemma findall_tail (g : text) :
  quiet g [] = true -> findall hex_pattern g = [].
Proof.
  induction g as [| c g IH]; intros Hq; [reflexivity|].
  rewrite quiet_cons in Hq. apply andb_true_iff in Hq as [Hc Hg].
  apply negb_true_iff in Hc. rewrite app_nil_r in Hc.
  rewrite findall_miss by exact Hc. now apply IH.
Qed.

Lemma findall_interleave (items : list (text * (ascii * ascii))) (tail : text) :
  well_cut items tail = true ->
  findall hex_pattern (interleave items tail)
  = map (fun it => [fst (snd it); snd (snd it)]) items.
Proof.
  induction items as [| [g h] items IH]; intros H;
    cbn [well_cut] in H; cbn [interleave map].
  - now apply findall_tail.
  - apply andb_true_iff in H as [H Hrest].
    apply andb_true_iff in H as [H H2].
    apply andb_true_iff in H as [Hq H1].
    rewrite findall_gap by (trivial; simpl; lia).
    rewrite findall_hit by assumption.
    now rewrite IH.
Qed.

Lemma between_bounds (lo hi : nat) (c : ascii) :
  between lo hi c = true -> (lo <= code c <= hi)%nat.
Proof.
  unfold between. intros H. apply andb_true_iff in H as [H1 H2].
  apply Nat.leb_le in H1, H2. lia.
Qed.

Lemma hex_digit_range (c : ascii) :
  is_hex c = true -> exists d, hex_digit c = Some d /\ (0 <= d < 16)%Z.
Proof.
  unfold is_hex, hex_digit. intros H.
  destruct (between 48 57 c) eqn:E1.
  { apply between_bounds in E1. eexists. split; [reflexivity | lia]. }
  destruct (between 97 102 c) eqn:E2.
  { apply between_bounds in E2. eexists. split; [reflexivity | lia]. }
  destruct (between 65 70 c) eqn:E3.
  { apply between_bounds in E3. eexists. split; [reflexivity | lia]. }
  discriminate.
Qed.

Lemma int16_pair (h : ascii * ascii) :
  is_hex (fst h) = true -> is_hex (snd h) = true ->
  int16 [fst h; snd h] = Some (byte_of h) /\ (0 <= byte_of h < 256)%Z.
Proof.
  intros H1 H2. unfold byte_of, hex_value, int16. cbn [int16_from].
  destruct (hex_digit_range _ H1) as (d1 & -> & B1).
  destruct (hex_digit_range _ H2) as (d2 & -> & B2).
  split; [f_equal; lia | lia].
Qed.

Lemma to_bytes_pairs (hs : list (ascii * ascii)) :
  forallb (fun h => is_hex (fst h) && is_hex (snd h)) hs = true ->
  to_bytes (map (fun h => [fst h; snd h]) hs) = Ok (map byte_of hs).
Proof.
  induction hs as [| h hs IH]; intros H; [reflexivity|].
  cbn [forallb] in H. cbn [map to_bytes].
  apply andb_true_iff in H as [H Hs]. apply andb_true_iff in H as [H1 H2].
  destruct (int16_pair h H1 H2) as [E B].
  rewrite E. rewrite (IH Hs).
  destruct (Z.leb_spec 0 (byte_of h)); [|lia].
  destruct (Z.ltb_spec (byte_of h) 256); [|lia].
  reflexivity.
Qed.

Lemma well_cut_digits (items : list (text * (ascii * ascii))) (tail : text) :
  well_cut items tail = true ->
  forallb (fun h => is_hex (fst h) && is_hex (snd h)) (map snd items) = true.
Proof.
  induction items as [| [g h] items IH]; simpl; intros H; [reflexivity|].
  apply andb_true_iff in H as [H Hrest].
  apply andb_true_iff in H as [H H2].
  apply andb_true_iff in H as [Hq H1].
  now rewrite H1, H2, IH.
Qed.

(** Every text can be cut at its occurrences. *)
Lemma cut_exists (n : nat) (s : text) :
  (length s <= n)%nat ->
  exists items tail, s = interleave items tail /\ well_cut items tail = true.
Proof.
  revert s. induction n as [| n IH]; intros s Hn.
  - destruct s; [|simpl in Hn; lia]. exists [], []. split; reflexivity.
  - destruct (occurs_at s) eqn:Ho.
    + destruct s as [| a [| b [| c [| d s]]]]; try discriminate.
      simpl in Ho.
      apply andb_true_iff in Ho as [Ho Hd]. apply andb_true_iff in Ho as [Ho Hc].
      apply andb_true_iff in Ho as [Ha Hb].
      apply Ascii.eqb_eq in Ha, Hb. subst a b.
      destruct (IH s) as (items & tail & -> & Hw); [simpl in Hn; lia|].
      exists (([], (c, d)) :: items), tail. split; [reflexivity|].
      simpl. now rewrite Hc, Hd, Hw.
    + destruct s as [| c s]; [exists [], []; split; reflexivity|].
      destruct (IH s) as (items & tail & -> & Hw); [simpl in Hn; lia|].
      destruct items as [| [g h] items].
      * exists [], (c :: tail). split; [reflexivity|].
        cbn [well_cut interleave] in *. rewrite quiet_cons, app_nil_r, Ho. exact Hw.
      * exists ((c :: g, h) :: items), tail. split; [reflexivity|].
        cbn [well_cut interleave] in *. rewrite quiet_cons.
        apply andb_true_iff in Hw as [Hw Hrest].
        apply andb_true_iff in Hw as [Hw H2].
        apply andb_true_iff in Hw as [Hq H1].
        rewrite Hq, H1, H2, Hrest.
        rewrite app_assoc in Ho.
        change (c :: (g ++ token h) ++ interleave items tail)
          with ((c :: g ++ token h) ++ interleave items tail) in Ho.
        rewrite occurs_at_window in Ho by (simpl; rewrite length_app; simpl; lia).
        now rewrite Ho.
Qed.

End HexTokens.

Section Literals.

Local Arguments Ascii.eqb : simpl never.

Lemma hex_is_word (c : ascii) : is_hex c = true -> is_word c = true.
Proof.
  unfold is_hex, is_word. intros H.
  apply orb_true_iff in H as [H | H]; [apply orb_true_iff in H as [H | H]|].
  - now rewrite H.
  - apply between_bounds in H.
    assert (E : between 97 122 c = true).
    { unfold between. apply andb_true_iff. split; apply Nat.leb_le; lia. }
    rewrite E. now rewrite !orb_true_r.
  - apply between_bounds in H.
    assert (E : between 65 90 c = true).
    { unfold between. apply andb_true_iff. split; apply Nat.leb_le; lia. }
    rewrite E. now rewrite !orb_true_r.
Qed.

Lemma delimited_not_hex (c : ascii) (rest : text) :
  delimited (c :: rest) = true -> is_hex c = false /\ Ascii.eqb "x" c = false.
Proof.
  unfold delimited, stops. intros H. apply negb_true_iff in H. split.
  - destruct (is_hex c) eqn:E; [|reflexivity].
    apply hex_is_word in E. congruence.
  - destruct (Ascii.eqb "x" c) eqn:E; [|reflexivity].
    apply Ascii.eqb_eq in E. subst c. discriminate.
Qed.

Lemma hex_not_x (c : ascii) : is_hex c = true -> Ascii.eqb "x" c = false.
Proof.
  intros H. destruct (Ascii.eqb "x" c) eqn:E; [|reflexivity].
  apply Ascii.eqb_eq in E. subst c. discriminate.
Qed.

Lemma occurs_at_needs_x (a b : ascii) (s : text) :
  Ascii.eqb "x" b = false -> occurs_at (a :: b :: s) = false.
Proof.
  intros H. unfold occurs_at. destruct s as [| c [| d s]]; try reflexivity.
  rewrite H. now rewrite andb_false_r.
Qed.

Lemma findall_digit_run (more rest : text) :
  forallb is_hex more = true -> delimited rest = true ->
  findall hex_pattern (more ++ rest) = findall hex_pattern rest.
Proof.
  intros Hm Hd. induction more as [| c more IH]; [reflexivity|].
  cbn [forallb] in Hm. apply andb_true_iff in Hm as [Hc Hm].
  cbn [app]. rewrite findall_miss; [now apply IH|].
  destruct more as [| d more].
  - destruct rest as [| d rest]; [reflexivity|].
    apply occurs_at_needs_x. now apply (delimited_not_hex d rest).
  - apply occurs_at_needs_x. apply hex_not_x.
    cbn [forallb] in Hm. now apply andb_true_iff in Hm as [Hd' _].
Qed.

Lemma findall_short_literal (digits rest : text) :
  (length digits <= 1)%nat -> forallb is_hex digits = true -> delimited rest = true ->
  findall hex_pattern ("0"%char :: "x"%char :: digits ++ rest) = findall hex_pattern rest.
Proof.
  intros Hl Hh Hd.
  assert (H0 : occurs_at ("0"%char :: "x"%char :: digits ++ rest) = false).
  { destruct digits as [| h [| h' digits]]; [| |simpl in Hl; lia].
    - destruct rest as [| c [| d rest]]; try reflexivity.
      destruct (delimited_not_hex c _ Hd) as [E _].
      unfold occurs_at. cbn [app]. rewrite E. now rewrite andb_false_r.
    - destruct rest as [| c rest]; [reflexivity|].
      destruct (delimited_not_hex c _ Hd) as [E _].
      unfold occurs_at. cbn [app]. rewrite E. now rewrite andb_false_r. }
  rewrite findall_miss by exact H0.
  rewrite findall_miss.
  - now apply findall_digit_run.
  - destruct (digits ++ rest) as [| c [| d [| e s]]]; reflexivity.
Qed.

Lemma findall_occurrences (n : nat) (s : text) :
  (length s <= n)%nat -> overlap_free s = true ->
  findall hex_pattern s = occurrences s.
Proof.
  revert s. induction n as [| n IH]; intros s Hn Hf.
  - destruct s; [reflexivity | simpl in Hn; lia].
  - destruct s as [| a s]; [reflexivity|].
    cbn [overlap_free] in Hf. apply andb_true_iff in Hf as [Ho Hf].
    destruct (occurs_at (a :: s)) eqn:Ha.
    + destruct s as [| b [| c [| d s]]]; try discriminate.
      pose proof Ha as Ha'. unfold occurs_at in Ha'.
      apply andb_true_iff in Ha' as [Ha' Hd]. apply andb_true_iff in Ha' as [Ha' Hc].
      apply andb_true_iff in Ha' as [Ea Eb].
      apply Ascii.eqb_eq in Ea, Eb. subst a b.
      change ("0"%char :: "x"%char :: c :: d :: s) with (token (c, d) ++ s).
      rewrite findall_hit by assumption.
      change (token (c, d) ++ s) with ("0"%char :: "x"%char :: c :: d :: s).
      cbn [overlap_free] in Hf.
      apply andb_true_iff in Hf as [_ Hf]. apply andb_true_iff in Hf as [_ Hf].
      apply andb_true_iff in Hf as [_ Hf].
      cbn [occurrences]. rewrite Ha.
      assert (E1 : occurs_at ("x"%char :: c :: d :: s) = false)
        by (destruct s; reflexivity).
      assert (E2 : occurs_at (c :: d :: s) = false)
        by (apply occurs_at_needs_x; now apply hex_not_x).
      assert (E3 : occurs_at (d :: s) = false).
      { cbn [skipn] in Ho. rewrite andb_true_l in Ho. now apply negb_true_iff in Ho. }
      rewrite E1, E2, E3. cbn [app firstn skipn fst snd].
      f_equal. apply IH; [simpl in Hn; lia | exact Hf].
    + rewrite findall_miss by exact Ha. cbn [occurrences]. rewrite Ha.
      apply IH; [simpl in Hn; lia | exact Hf].
Qed.

End Literals.

(** C6: cut the initializer text at the occurrences of [0x] and two
    hexadecimal digits (every text has such a cut).  The decoder returns one
    byte per occurrence, in the order of the text, whatever stands between
    them; with no occurrence it raises the parse error that names the file.
    When no occurrence starts on the last digit of another, the bytes are
    those of the occurrences at all positions of the text, in order. *)
Theorem hex_tokens_in_textual_order
    (c_file_path : text) (items : list (text * (ascii * ascii))) (tail : text)
    (H : well_cut items tail = true) :
  let array_str := interleave items tail in
  findall hex_pattern array_str = map (fun it => [fst (snd it); snd (snd it)]) items
  /\ (items <> [] ->
      extract_bytes c_file_path array_str = Ok (map (fun it => byte_of (snd it)) items))
  /\ (items = [] ->
      extract_bytes c_file_path array_str
      = Raise (ValueError (str "Could not parse hex values from array in " ++ c_file_path)))
  /\ (forall s : text, exists items' tail',
        s = interleave items' tail' /\ well_cut items' tail' = true)
  /\ (forall s : text, overlap_free s = true ->
        findall hex_pattern s = occurrences s)
  /\ parse_content c_file_path
       (str "static const uint8_t frame1_map[] = { 0x01, 0x02, 0xff };")
     = Ok [1; 2; 255]%Z.
Proof.
  intros array_str.
  pose proof (findall_interleave items tail H) as F. fold array_str in F.
  split; [exact F|]. split; [|split; [|split; [|split]]].
  - intros Hne. unfold extract_bytes. rewrite F.
    destruct items as [| it items]; [congruence|].
    rewrite <- (map_map snd (fun h => [fst h; snd h])).
    rewrite to_bytes_pairs by (now apply well_cut_digits with (tail := tail)).
    rewrite (map_map snd byte_of). reflexivity.
  - intros ->. unfold extract_bytes. rewrite F. reflexivity.
  - intros s. apply cut_exists with (n := length s). lia.
  - intros s. apply findall_occurrences with (n := length s). lia.
  - vm_compute. reflexivity.
Qed.

Lemma hex_tokens_in_textual_order_witness :
  well_cut [(str " ", ("0", "1")%char); (str ", /* c */ ", ("F", "f")%char)] (str " ") = true
  /\ extract_bytes (str "frame1.c") (str " 0x01, /* c */ 0xFf ") = Ok [1; 255]%Z.
Proof.
  split; [reflexivity|].
  apply (@hex_tokens_in_textual_order (str "frame1.c")
           [(str " ", ("0", "1")%char); (str ", /* c */ ", ("F", "f")%char)] (str " "));
    [reflexivity | discriminate].
Defined.

(** C10: a literal with more than two hexadecimal digits gives one byte,
    made of its first two digits; a literal with fewer than two digits gives
    none.  A 16-bit initializer is therefore not decoded into byte pairs. *)
Theorem wide_and_narrow_literals
    (c_file_path : text) (h1 h2 : ascii) (more rest : text)
    (H1 : is_hex h1 = true) (H2 : is_hex h2 = true)
    (Hm : forallb is_hex more = true) (Hne : more <> [])
    (Hd : delimited rest = true) :
  findall hex_pattern (str "0x" ++ [h1; h2] ++ more ++ rest)
    = [h1; h2] :: findall hex_pattern rest
  /\ findall hex_pattern (str "0x" ++ [h1] ++ rest) = findall hex_pattern rest
  /\ findall hex_pattern (str "0x" ++ rest) = findall hex_pattern rest
  /\ parse_content c_file_path
       (str "static const uint16_t frame1_map[] = { 0x1234, 0xabcd };")
     = Ok [0x12; 0xab]%Z
  /\ parse_content c_file_path
       (str "static const uint16_t frame1_map[] = { 0x1, 0x2 };")
     = Raise (ValueError (str "Could not parse hex values from array in " ++ c_file_path)).
Proof.
  split; [|split; [|split; [|split]]].
  - change (str "0x" ++ [h1; h2] ++ more ++ rest) with (token (h1, h2) ++ more ++ rest).
    rewrite findall_hit by assumption.
    now rewrite findall_digit_run.
  - apply (findall_short_literal [h1] rest); simpl; try lia; try assumption.
    now rewrite H1.
  - apply (findall_short_literal [] rest); simpl; try lia; trivial.
  - vm_compute. reflexivity.
  - vm_compute. reflexivity.
Qed.

Lemma wide_and_narrow_literals_witness :
  (is_hex "1" = true /\ is_hex "2" = true /\ forallb is_hex (str "34") = true
   /\ str "34" <> [] /\ delimited (str ", 0x5") = true)
  /\ findall hex_pattern (str "0x" ++ [ "1"; "2" ]%char ++ str "34" ++ str ", 0x5")
     = [ "1"; "2" ]%char :: findall hex_pattern (str ", 0x5").
Proof.
  split; [repeat split; try reflexivity; discriminate|].
  apply (@wide_and_narrow_literals (str "frame1.c") "1" "2" (str "34") (str ", 0x5"));
    try reflexivity; discriminate.
Defined.

(** ** Declarations *)

Section Declarations.

Local Arguments Ascii.eqb : simpl never.

Lemma flat_map_flat_map {A B C} (f : B -> list C) (g : A -> list B) (l : list A) :
  flat_map f (flat_map g l) = flat_map (fun x => flat_map f (g x)) l.
Proof.
  induction l as [| a l IH]; simpl; [reflexivity|].
  now rewrite flat_map_app, IH.
Qed.

Lemma run_cat_assoc (a b r : regex) (s : text) (cap : option text) :
  run (Cat (Cat a b) r) s cap = run (Cat a (Cat b r)) s cap.
Proof. simpl. apply flat_map_flat_map. Qed.

Lemma gap_spec (w : text) :
  gap w = true -> forallb is_space w = true /\ (1 <= length w)%nat.
Proof.
  unfold gap, nonempty. intros H. apply andb_true_iff in H as [H1 H2].
  split; [exact H2|]. apply negb_true_iff, Nat.eqb_neq in H1. lia.
Qed.

Lemma nonempty_spec (w : text) : nonempty w = true -> (1 <= length w)%nat.
Proof. unfold nonempty. intros H. apply negb_true_iff, Nat.eqb_neq in H. lia. Qed.

Lemma rep_match_in (p : ascii -> bool) (a : ascii) (s : text) :
  p a = true -> rep_match p 0 (a :: s) = rep_match p 0 s ++ [a :: s].
Proof. intros H. simpl. now rewrite H. Qed.

Lemma lit_underscore_stops (l s : text) :
  stops is_word s = true -> lit_match ("_"%char :: l) s = None.
Proof.
  destruct s as [| c s]; [reflexivity|]. simpl. intros H.
  destruct (Ascii.eqb "_" c) eqn:E; [|reflexivity].
  apply Ascii.eqb_eq in E. subst c. discriminate.
Qed.

(** [\w+_map]: the greedy [\w+] swallows the suffix and gives it back. *)
Lemma first_word_map (r : regex) (base s : text) (cap : option text) (y : mstate) :
  forallb is_word base = true -> (1 <= length base)%nat -> stops is_word s = true ->
  hd_error (run r s cap) = Some y ->
  hd_error (run (Cat (Rep is_word 1) (Cat (Lit (str "_map")) r))
                (base ++ str "_map" ++ s) cap) = Some y.
Proof.
  intros Hb Hn Hs Hy.
  cbn [run].
  destruct (rep_match_app is_word base (str "_map" ++ s) 1 Hb) as [tl E]. rewrite E.
  replace (1 - length base)%nat with 0%nat by lia.
  change (str "_map" ++ s) with ("_"%char :: "m"%char :: "a"%char :: "p"%char :: s).
  rewrite !rep_match_in by reflexivity.
  rewrite (rep_match_stops _ _ Hs).
  rewrite <- !app_assoc. cbn [app map flat_map fst snd].
  assert (E0 : lit_match (str "_map") s = None)
    by (exact (lit_underscore_stops (str "map") s Hs)).
  rewrite E0.
  change (lit_match (str "_map") ("p"%char :: s)) with (@None text).
  change (lit_match (str "_map") ("a"%char :: "p"%char :: s)) with (@None text).
  change (lit_match (str "_map") ("m"%char :: "a"%char :: "p"%char :: s)) with (@None text).
  change ("_"%char :: "m"%char :: "a"%char :: "p"%char :: s) with (str "_map" ++ s).
  rewrite lit_match_app.
  cbn [flat_map app fst snd]. rewrite app_nil_r.
  now apply hd_error_app_some.
Qed.

Lemma first_after_ident (w5 w6 bd post : text) (cap : option text) :
  forallb is_space w5 = true -> forallb is_space w6 = true ->
  forallb not_rbrace bd = true -> (1 <= length bd)%nat ->
  hd_error (run after_ident
                (str "[]" ++ w5 ++ str "=" ++ w6 ++ str "{" ++ bd ++ str "}" ++ post) cap)
  = Some (post, Some bd).
Proof.
  intros H5 H6 Hb Hn. unfold after_ident. cbn [cat].
  rewrite first_lit.
  apply first_rep; [exact H5 | lia | reflexivity |].
  rewrite first_lit.
  apply first_rep; [exact H6 | lia | reflexivity |].
  rewrite first_lit.
  apply first_group_rep; [exact Hb | exact Hn | reflexivity].
Qed.

Lemma first_before_ident (r : regex) (d : decl) (t : text) (y : mstate) :
  gap (ws_static d) = true -> gap (ws_const d) = true ->
  match attr d with Some w => gap w | None => true end = true ->
  gap (ws_type d) = true ->
  stops is_space t = true ->
  hd_error (run r t None) = Some y ->
  hd_error (run (before_ident r) (prefix_text d t) None) = Some y.
Proof.
  intros G1 G2 G3 G4 Ht Hy.
  apply gap_spec in G1 as [S1 L1]. apply gap_spec in G2 as [S2 L2].
  apply gap_spec in G4 as [S4 L4].
  unfold before_ident, prefix_text. cbn [cat].
  rewrite first_lit.
  apply first_rep; [exact S1 | exact L1 | reflexivity |].
  rewrite first_lit.
  assert (Ty : forall cap y',
    hd_error (run r t cap) = Some y' ->
    hd_error (run (Cat (Lit (str "uint"))
                    (Cat (Alt (Lit (str "8")) (Lit (str "16")))
                      (Cat (Lit (str "_t")) (Cat (Rep is_space 1) r))))
                  (str "uint" ++ (if bits16 d then str "16" else str "8") ++
                   str "_t" ++ ws_type d ++ t) cap) = Some y').
  { intros cap y' Hy'. rewrite first_lit.
    destruct (bits16 d); cbv iota.
    - rewrite first_alt_right by reflexivity.
      rewrite first_lit, first_lit.
      apply first_rep; [exact S4 | exact L4 | exact Ht | exact Hy'].
    - apply first_alt_left.
      rewrite first_lit, first_lit.
      apply first_rep; [exact S4 | exact L4 | exact Ht | exact Hy']. }
  destruct (attr d) as [w |].
  - apply gap_spec in G3 as [S3 L3].
    apply first_rep; [exact S2 | exact L2 | reflexivity |].
    apply first_opt_taken.
    rewrite run_cat_assoc, <- app_assoc, first_lit.
    apply first_rep; [exact S3 | exact L3 | reflexivity |].
    now apply Ty.
  - cbn [app].
    apply first_rep; [exact S2 | exact L2 | destruct (bits16 d); reflexivity |].
    rewrite first_opt_skipped by (destruct (bits16 d); reflexivity).
    now apply Ty.
Qed.

End Declarations.

Section Acceptance.

Local Arguments Ascii.eqb : simpl never.

Lemma word_not_space (c : ascii) : is_word c = true -> is_space c = false.
Proof.
  destruct c as [b0 b1 b2 b3 b4 b5 b6 b7].
  destruct b0, b1, b2, b3, b4, b5, b6, b7; vm_compute; congruence.
Qed.

Lemma word_start_stops_space (w s : text) :
  forallb is_word w = true -> (1 <= length w)%nat -> stops is_space (w ++ s) = true.
Proof.
  destruct w as [| c w]; simpl; intros H L; [lia|].
  apply andb_true_iff in H as [H _]. now rewrite (word_not_space _ H).
Qed.

Lemma forallb_firstn {A} (p : A -> bool) (n : nat) (l : list A) :
  forallb p l = true -> forallb p (firstn n l) = true.
Proof.
  revert n. induction l as [| a l IH]; intros [| n] H; simpl in *; try reflexivity.
  apply andb_true_iff in H as [Ha Hl]. now rewrite Ha, IH.
Qed.

Lemma forallb_skipn {A} (p : A -> bool) (n : nat) (l : list A) :
  forallb p l = true -> forallb p (skipn n l) = true.
Proof.
  revert n. induction l as [| a l IH]; intros [| n] H; simpl in *; try reflexivity;
    try assumption.
  apply andb_true_iff in H as [Ha Hl]. now apply IH.
Qed.

Lemma map_suffix_split (name : text) :
  has_map_suffix name = true ->
  name = firstn (length name - 4) name ++ str "_map"
  /\ (1 <= length (firstn (length name - 4) name))%nat.
Proof.
  unfold has_map_suffix, text_eqb. intros H.
  apply andb_true_iff in H as [H5 H].
  apply Nat.leb_le in H5.
  destruct (list_eq_dec ascii_dec _ _) as [E | _]; [|discriminate].
  split.
  - rewrite <- E. symmetry. apply firstn_skipn.
  - rewrite length_firstn. lia.
Qed.

Lemma render_split (d : decl) (post : text) :
  render d ++ post
  = prefix_text d (ident d ++ str "[]" ++ ws_eq1 d ++ str "=" ++ ws_eq2 d ++
                   str "{" ++ body d ++ str "}" ++ post).
Proof.
  unfold render, prefix_text.
  destruct (attr d); rewrite <- ?app_assoc; reflexivity.
Qed.

Lemma valid_parts (d : decl) :
  valid d = true ->
  gap (ws_static d) = true /\ gap (ws_const d) = true
  /\ match attr d with Some w => gap w | None => true end = true
  /\ gap (ws_type d) = true
  /\ (1 <= length (ident d))%nat /\ forallb is_word (ident d) = true
  /\ forallb is_space (ws_eq1 d) = true /\ forallb is_space (ws_eq2 d) = true
  /\ (1 <= length (body d))%nat /\ forallb not_rbrace (body d) = true.
Proof.
  unfold valid. intros H.
  apply andb_true_iff in H as [H Hb]. apply andb_true_iff in H as [H H6].
  apply andb_true_iff in H as [H H5]. apply andb_true_iff in H as [H Hi].
  apply andb_true_iff in H as [H H4]. apply andb_true_iff in H as [H H3].
  apply andb_true_iff in H as [H1 H2].
  apply andb_true_iff in Hb as [Lb Nb]. apply andb_true_iff in Hi as [Li Wi].
  repeat split; try assumption; now apply nonempty_spec.
Qed.

Lemma accept_any (d : decl) (post : text) :
  valid d = true ->
  match_at array_pattern_any (render d ++ post) = Some (post, Some (body d)).
Proof.
  intros H. apply valid_parts in H
    as (G1 & G2 & G3 & G4 & Li & Wi & S5 & S6 & Lb & Nb).
  rewrite render_split. unfold match_at.
  change array_pattern_any with (before_ident (Cat (Rep is_word 1) after_ident)).
  apply first_before_ident; try assumption.
  - now apply word_start_stops_space.
  - apply first_rep; [exact Wi | exact Li | reflexivity |].
    now apply first_after_ident.
Qed.

Lemma accept_map (d : decl) (post : text) :
  valid d = true -> has_map_suffix (ident d) = true ->
  match_at array_pattern_map (render d ++ post) = Some (post, Some (body d)).
Proof.
  intros H Hs. apply valid_parts in H
    as (G1 & G2 & G3 & G4 & Li & Wi & S5 & S6 & Lb & Nb).
  apply map_suffix_split in Hs as [E Lbase].
  rewrite render_split. unfold match_at.
  change array_pattern_map
    with (before_ident (Cat (Rep is_word 1) (Cat (Lit (str "_map")) after_ident))).
  apply first_before_ident; try assumption.
  - now apply word_start_stops_space.
  - rewrite E at 1. rewrite <- app_assoc.
    apply first_word_map.
    + now apply forallb_firstn.
    + exact Lbase.
    + reflexivity.
    + now apply first_after_ident.
Qed.

Lemma run_keeps_group (r : regex) (s : text) (cap : option text) (y : mstate) :
  In y (run r s cap) -> (exists g, cap = Some g) -> exists g, snd y = Some g.
Proof.
  revert s cap y. induction r; intros t cap y Hy Hc; simpl in Hy.
  - destruct (lit_match s t); [|contradiction]. destruct Hy as [<- | []]. exact Hc.
  - destruct t as [| a t]; [contradiction|].
    destruct (p a); [|contradiction]. destruct Hy as [<- | []]. exact Hc.
  - apply in_map_iff in Hy as (s' & <- & _). exact Hc.
  - apply in_app_or in Hy as [Hy | [<- | []]]; [now apply (IHr t cap) | exact Hc].
  - apply in_app_or in Hy as [Hy | Hy]; [now apply (IHr1 t cap) | now apply (IHr2 t cap)].
  - apply in_flat_map in Hy as (x & Hx & Hy).
    apply (IHr2 _ _ _ Hy). exact (IHr1 t cap x Hx Hc).
  - apply in_map_iff in Hy as (x & <- & _). simpl. eauto.
Qed.

Lemma run_sets_group (r : regex) (s : text) (cap : option text) (y : mstate) :
  sets_group r = true -> In y (run r s cap) -> exists g, snd y = Some g.
Proof.
  revert s cap y. induction r; intros t cap y Hg Hy; simpl in Hg; try discriminate;
    simpl in Hy.
  - apply andb_true_iff in Hg as [G1 G2].
    apply in_app_or in Hy as [Hy | Hy]; [now apply (IHr1 t cap) | now apply (IHr2 t cap)].
  - apply in_flat_map in Hy as (x & Hx & Hy).
    destruct (sets_group r1) eqn:G1.
    + eapply run_keeps_group; [exact Hy|]. exact (IHr1 t cap x eq_refl Hx).
    + simpl in Hg. exact (IHr2 (fst x) (snd x) y Hg Hy).
  - apply in_map_iff in Hy as (x & <- & _). simpl. eauto.
Qed.

Lemma search_in_run (r : regex) (s : text) (m : mstate) :
  search r s = Some m -> exists suf, In m (run r suf None).
Proof.
  induction s as [| c s IH]; simpl; unfold match_at.
  - destruct (run r [] None) as [| x l] eqn:E; simpl; [discriminate|].
    intros [= <-]. exists []. rewrite E. now left.
  - destruct (run r (c :: s) None) as [| x l] eqn:E; simpl; [exact IH|].
    intros [= <-]. exists (c :: s). rewrite E. now left.
Qed.

Lemma search_sets_group (r : regex) (s : text) (m : mstate) :
  sets_group r = true -> search r s = Some m -> exists g, snd m = Some g.
Proof.
  intros Hg Hs. apply search_in_run in Hs as [suf Hin].
  now apply (run_sets_group r suf None).
Qed.

End Acceptance.

(** C5: the decoder tries the pattern with the [_map] suffix first, then
    the pattern with any identifier, and raises the extraction error that
    names the file when neither matches.  A declaration is accepted with or
    without [LV_ATTRIBUTE_MEM_ALIGN], with [uint8_t] or [uint16_t], with any
    white space between its parts and any text without [}] in the braces. *)
Theorem two_pattern_policy
    (c_file_path content : text) (d : decl) (post : text) (Hd : valid d = true) :
  (forall rest g, search array_pattern_map content = Some (rest, Some g) ->
     parse_content c_file_path content = extract_bytes c_file_path g)
  /\ (search array_pattern_map content = None ->
      forall rest g, search array_pattern_any content = Some (rest, Some g) ->
      parse_content c_file_path content = extract_bytes c_file_path g)
  /\ (search array_pattern_map content = None ->
      search array_pattern_any content = None ->
      parse_content c_file_path content
      = Raise (ValueError (str "Could not find pixel data array in " ++ c_file_path)))
  /\ (forall m, search array_pattern_map content = Some m
                \/ search array_pattern_any content = Some m ->
      exists g, snd m = Some g)
  /\ (has_map_suffix (ident d) = true ->
      search array_pattern_map (render d ++ post) = Some (post, Some (body d))
      /\ parse_content c_file_path (render d ++ post)
         = extract_bytes c_file_path (body d))
  /\ search array_pattern_any (render d ++ post) = Some (post, Some (body d))
  /\ (search array_pattern_map (render d ++ post) = None ->
      parse_content c_file_path (render d ++ post)
      = extract_bytes c_file_path (body d))
  /\ parse_content c_file_path
       (str "static const uint8_t a[] = {0x01}; static const uint8_t b_map[] = {0x02};")
     = Ok [2%Z]
  /\ search array_pattern_map (str "static const uint8_t a[] = {0x01};") = None
  /\ parse_content c_file_path (str "static const uint8_t a[] = {0x01};") = Ok [1%Z].
Proof.
  assert (Any : search array_pattern_any (render d ++ post) = Some (post, Some (body d)))
    by (apply search_found; now apply accept_any).
  repeat apply conj.
  - intros rest g E. unfold parse_content. now rewrite E.
  - intros E1 rest g E2. unfold parse_content. now rewrite E1, E2.
  - intros E1 E2. unfold parse_content. now rewrite E1, E2.
  - intros m [E | E]; apply search_sets_group in E; trivial.
  - intros Hs.
    assert (E : search array_pattern_map (render d ++ post) = Some (post, Some (body d)))
      by (apply search_found; now apply accept_map).
    split; [exact E|]. unfold parse_content. now rewrite E.
  - exact Any.
  - intros E. unfold parse_content. now rewrite E, Any.
  - vm_compute. reflexivity.
  - vm_compute. reflexivity.
  - vm_compute. reflexivity.
Qed.

Lemma two_pattern_policy_witness :
  valid sample_decl = true
  /\ has_map_suffix (ident sample_decl) = true
  /\ parse_content (str "frame1.c") (render sample_decl ++ str ";")
     = extract_bytes (str "frame1.c") (body sample_decl)
  /\ extract_bytes (str "frame1.c") (body sample_decl) = Ok [1; 2; 255]%Z.
Proof.
  split; [reflexivity|]. split; [reflexivity|]. split; [|reflexivity].
  pose proof (@two_pattern_policy (str "frame1.c") [] sample_decl (str ";")
                (eq_refl : valid sample_decl = true)) as T.
  destruct T as (_ & _ & _ & _ & A & _).
  destruct (A eq_refl) as [_ E]. exact E.
Defined.

(** ** The batch run *)

Section Worlds.

Lemma same_env_refl (w : world) : same_env w w.
Proof. repeat split. Qed.

Lemma same_env_sym (w1 w2 : world) : same_env w1 w2 -> same_env w2 w1.
Proof. intros (A1 & A2 & A3 & A4). repeat split; congruence. Qed.

Lemma same_env_trans (w1 w2 w3 : world) :
  same_env w1 w2 -> same_env w2 w3 -> same_env w1 w3.
Proof.
  intros (A1 & A2 & A3 & A4) (B1 & B2 & B3 & B4). repeat split; congruence.
Qed.

Lemma extends_refl (w : world) : extends w w.
Proof. split; trivial. Qed.

Lemma extends_trans (w1 w2 w3 : world) : extends w1 w2 -> extends w2 w3 -> extends w1 w3.
Proof. intros [A1 A2] [B1 B2]. split; auto. Qed.

Lemma grow_nil (w : world) : grow w [] [] = w.
Proof. destruct w. unfold grow. cbn. now rewrite !app_nil_r. Qed.

Lemma grow_grow (w : world) dw1 dc1 dw2 dc2 :
  grow (grow w dw1 dc1) dw2 dc2 = grow w (dw1 ++ dw2) (dc1 ++ dc2).
Proof. unfold grow. cbn. now rewrite !app_assoc. Qed.

Lemma say_grow (w : world) (p : printed) : say w p = grow w [] [p].
Proof. unfold say, grow. now rewrite app_nil_r. Qed.

Lemma write_file_grow (w : world) (bin_path : text) (data : list Z) :
  write_file w bin_path data = grow w [(bin_path, data)] [].
Proof. unfold write_file, grow. now rewrite app_nil_r. Qed.

Lemma grow_same_env (w : world) dw dc : same_env w (grow w dw dc).
Proof. repeat split. Qed.

Lemma grow_extends (w : world) dw dc : extends w (grow w dw dc).
Proof. split; cbn; intros; apply in_or_app; now left. Qed.

Lemma skipn_app_exact {A} (a b : list A) : skipn (length a) (a ++ b) = b.
Proof. now rewrite skipn_app, skipn_all, Nat.sub_diag. Qed.

(** A print that does not raise. *)
Lemma print_then {A} (p : printed) (k : M A) (w : world) :
  print_fault w p = None -> (print p ;; k) w = k (say w p).
Proof. intros E. unfold bind, print. now rewrite E. Qed.

(** A print that raises. *)
Lemma print_stops {A} (p : printed) (k : M A) (w : world) (e : exn) :
  print_fault w p = Some e -> (print p ;; k) w = (Raise e, w).
Proof. intros E. unfold bind, print. now rewrite E. Qed.

(** The handler of [convert_c_to_bin]. *)
Lemma on_failure_eq (c_path : ppath) (e : exn) (w : world) :
  on_failure c_path e w
  = match print_fault w (PFailed (path_str c_path) e) with
    | Some e' => (Raise e', w)
    | None => (Ok false, say w (PFailed (path_str c_path) e))
    end.
Proof. unfold on_failure, bind, print, ret. now destruct (print_fault w _). Qed.

(** One call of [convert_c_to_bin], case by case. *)
Lemma convert_table (w : world) (c_file_path output_dir : pathlike) :
  let c_path := as_path c_file_path in
  let name := path_str c_path in
  let bin_path := bin_path_for (as_path output_dir) c_path in
  convert_c_to_bin c_file_path output_dir w
  = match files w name with
    | Absent =>
        match print_fault w (PNotFound (fstr c_file_path)) with
        | Some e => (Raise e, w)
        | None => (Ok false, say w (PNotFound (fstr c_file_path)))
        end
    | Inaccessible e => (Raise e, w)
    | Unreadable e => on_failure c_path e w
    | Readable content =>
        match parse_content name content with
        | Raise e => on_failure c_path e w
        | Ok data =>
            match print_fault w (PExtracted (length data) name) with
            | Some e => on_failure c_path e w
            | None =>
                let w1 := say w (PExtracted (length data) name) in
                match on_write w bin_path with
                | WriteRefused e => on_failure c_path e w1
                | WriteBroken kept e =>
                    on_failure c_path e (write_file w1 bin_path (firstn kept data))
                | Written =>
                    let w2 := write_file w1 bin_path data in
                    match print_fault w (PCreated bin_path (length data)) with
                    | Some e => on_failure c_path e w2
                    | None => (Ok true, say w2 (PCreated bin_path (length data)))
                    end
                end
            end
        end
    end.
Proof.
  intros c_path name bin_path.
  unfold convert_c_to_bin, try_except, parse_c_array, path_exists, read_text,
    write_bytes, print, bind, ret, throw.
  cbn [fstr]. fold c_path. fold name. fold (bin_path_for (as_path output_dir) c_path).
  fold bin_path.
  destruct (files w name) as [| e | e | content] eqn:Hf; cbn [negb]; rewrite ?Hf;
    try reflexivity.
  - now destruct (print_fault w _).
  - destruct (parse_content name content) as [data | e]; [|reflexivity].
    destruct (print_fault w (PExtracted _ _)); [reflexivity|].
    cbn [on_write say].
    destruct (on_write w bin_path); try reflexivity.
    cbn [print_fault write_file say].
    now destruct (print_fault w (PCreated _ _)).
Qed.

Lemma written_grow (w : world) dw dc : written (grow w dw dc) = written w ++ dw.
Proof. reflexivity. Qed.

Lemma console_grow (w : world) dw dc : console (grow w dw dc) = console w ++ dc.
Proof. reflexivity. Qed.

End Worlds.

(** Worlds as what has been added to the first one. *)
Ltac in_grow_form :=
  rewrite ?say_grow, ?write_file_grow, ?grow_grow;
  cbn [fst snd app]; rewrite ?written_grow, ?console_grow;
  rewrite ?skipn_app_exact, ?skipn_all, ?grow_nil.

(** The cases of one call of [convert_c_to_bin] in the world [w]. *)
Ltac convert_cases w c_file_path output_dir :=
  rewrite ?(convert_table w c_file_path output_dir);
  cbn [as_path fstr]; cbv zeta;
  let name := constr:(path_str (as_path c_file_path)) in
  let bin_path := constr:(bin_path_for (as_path output_dir) (as_path c_file_path)) in
  let name := eval cbn [as_path] in name in
  let bin_path := eval cbn [as_path] in bin_path in
  destruct (files w name) as [| ?e | ?e | ?content] eqn:Hfile;
    [| | | destruct (parse_content name content) as [?data | ?e] eqn:Hparse;
           [destruct (print_fault w (PExtracted _ _)) as [?e |] eqn:Hextracted;
            [| destruct (on_write w bin_path) as [| ?e | ?kept ?e] eqn:Hwrite;
               [destruct (print_fault w (PCreated _ _)) as [?e |] eqn:Hcreated | |]] |]];
    rewrite ?on_failure_eq; cbn [print_fault say write_file];
    try destruct (print_fault w (PFailed _ _)) as [?e |] eqn:Hfailed;
    try destruct (print_fault w (PNotFound _)) as [?e |] eqn:Hnotfound;
    in_grow_form.

Section Batch.

(** A call in a later world returns what the call in the first world
    returns, and adds what that call adds. *)
Lemma convert_delta (w w0 : world) (f out : ppath) :
  same_env w w0 ->
  convert_c_to_bin (OfPath f) (OfPath out) w0
  = (fst (convert_c_to_bin (OfPath f) (OfPath out) w),
     grow w0 (produced w out f) (reported w out f)).
Proof.
  intros (Ef & Ew & Ep & El).
  unfold produced, reported.
  rewrite (convert_table w0), (convert_table w).
  cbn [as_path fstr]. cbv zeta. rewrite <- Ef, <- Ew, <- Ep.
  destruct (files w (path_str f)) as [| e | e | content];
    [| | | destruct (parse_content (path_str f) content) as [data | e];
           [destruct (print_fault w (PExtracted _ _));
            [| destruct (on_write w (bin_path_for out f));
               [destruct (print_fault w (PCreated _ _)) | |]] |]];
    rewrite ?on_failure_eq; cbn [print_fault say write_file]; rewrite <- ?Ep;
    try destruct (print_fault w (PFailed _ _));
    try destruct (print_fault w (PNotFound _));
    in_grow_form; reflexivity.
Qed.

(** Under the two conditions a call returns, with [True] or [False]. *)
Lemma convert_contained (w : world) (f out : ppath) :
  (forall p, in_try p = false -> print_fault w p = None) ->
  (forall e, files w (path_str f) <> Inaccessible e) ->
  fst (convert_c_to_bin (OfPath f) (OfPath out) w) = Ok (converts w out f).
Proof.
  intros Hp Hs. unfold converts.
  convert_cases w (OfPath f) (OfPath out).
  all: try reflexivity.
  all: try (rewrite Hp in Hfailed by reflexivity; discriminate).
  all: try (rewrite Hp in Hnotfound by reflexivity; discriminate).
  now elim (Hs e).
Qed.






Lemma converts_of_result (w : world) (f out : ppath) (b : bool) :
  fst (convert_c_to_bin (OfPath f) (OfPath out) w) = Ok b -> converts w out f = b.
Proof. unfold converts. intros ->. now destruct b. Qed.

Lemma converts_of_raise (w : world) (f out : ppath) (e : exn) :
  fst (convert_c_to_bin (OfPath f) (OfPath out) w) = Raise e -> converts w out f = false.
Proof. unfold converts. now intros ->. Qed.

(** The loop calls [convert_c_to_bin] on the files in order until a call
    raises; [k] is the number of calls made. *)
Lemma convert_each_run (w : world) (out : ppath) (fs : list ppath) :
  forall (w0 : world) (n : nat),
  same_env w w0 ->
  exists k,
    (k <= length fs)%nat
    /\ snd (convert_each fs out n w0)
       = grow w0 (flat_map (produced w out) (firstn k fs))
                 (flat_map (reported w out) (firstn k fs))
    /\ match fst (convert_each fs out n w0) with
       | Ok c => k = length fs /\ c = (n + length (filter (converts w out) fs))%nat
       | Raise e =>
           exists f, nth_error fs (pred k) = Some f /\ (0 < k)%nat
                     /\ fst (convert_c_to_bin (OfPath f) (OfPath out) w) = Raise e
       end.
Proof.
  induction fs as [| f fs IH]; intros w0 n He.
  - exists 0%nat. cbn. rewrite grow_nil. split; [lia|]. split; [reflexivity|].
    split; [reflexivity | lia].
  - cbn [convert_each]. unfold bind. rewrite (convert_delta f out He).
    destruct (fst (convert_c_to_bin (OfPath f) (OfPath out) w)) as [b | e] eqn:R.
    + assert (He1 : same_env w (grow w0 (produced w out f) (reported w out f))).
      { apply same_env_trans with (w2 := w0); [exact He | apply grow_same_env]. }
      destruct (IH _ (if b then S n else n) He1) as (k & Hk & Hw & Hr).
      exists (S k). split; [simpl; lia|]. split.
      * rewrite Hw, grow_grow. reflexivity.
      * destruct (fst (convert_each fs out _ _)) as [c | e].
        -- destruct Hr as [-> ->]. split; [reflexivity|].
           cbn [filter]. rewrite (@converts_of_result w f out b R).
           destruct b; simpl; lia.
        -- destruct Hr as (g & Hg & Hpos & Hraise). exists g.
           split; [|split; [lia | exact Hraise]].
           destruct k; [lia | exact Hg].
    + exists 1%nat. split; [simpl; lia|]. split.
      * cbn [snd firstn flat_map]. now rewrite !app_nil_r.
      * cbn [fst]. exists f. split; [reflexivity|]. split; [lia | exact R].
Qed.

(** Under the two conditions the loop makes every call and counts the
    calls that return [True]. *)
Lemma convert_each_contained (w : world) (out : ppath) (fs : list ppath)
    (w0 : world) (n : nat) :
  (forall p, in_try p = false -> print_fault w p = None) ->
  (forall f e, In f fs -> files w (path_str f) <> Inaccessible e) ->
  same_env w w0 ->
  convert_each fs out n w0
  = (Ok (n + length (filter (converts w out) fs))%nat,
     grow w0 (flat_map (produced w out) fs) (flat_map (reported w out) fs)).
Proof.
  intros Hp Hs He.
  destruct (convert_each_run out fs n He) as (k & Hk & Hw & Hr).
  destruct (convert_each fs out n w0) as [r w1]. cbn [fst snd] in Hw, Hr.
  destruct r as [c | e].
  - destruct Hr as [-> ->]. now rewrite firstn_all in Hw; subst.
  - destruct Hr as (f & Hf & _ & Hraise).
    apply nth_error_In in Hf.
    rewrite (@convert_contained w f out Hp (fun e => Hs f e Hf)) in Hraise.
    discriminate.
Qed.

Lemma bind_assoc {A B C} (m : M A) (f : A -> M B) (g : B -> M C) (w : world) :
  bind (bind m f) g w = bind m (fun a => bind (f a) g) w.
Proof. unfold bind. destruct (m w) as [[a | e] w1]; reflexivity. Qed.

Lemma print_names_run {A} (fs : list ppath) (k : M A) (w : world) :
  (forall p, in_try p = false -> print_fault w p = None) ->
  (print_names fs ;; k) w
  = k (grow w [] (map (fun f => PFoundName (pp_name f)) fs)).
Proof.
  revert w. induction fs as [| f fs IH]; intros w Hp.
  - cbn. now rewrite grow_nil.
  - cbn [print_names map]. rewrite bind_assoc.
    rewrite print_then by (apply Hp; reflexivity).
    rewrite IH by (intros p H; apply Hp; exact H).
    now rewrite say_grow, grow_grow.
Qed.

(** The run of [main] when no print outside the [try] block raises. *)
Lemma main_run (w : world) (input_dir output_dir : ppath) :
  (forall p, in_try p = false -> print_fault w p = None) ->
  main input_dir output_dir w
  = match listing w (path_str input_dir) with
    | Raise e => (Raise e, grow w [] (banner input_dir output_dir))
    | Ok [] =>
        (Ok 1%Z, grow w [] (banner input_dir output_dir
                            ++ [PNoFiles (path_str input_dir)]))
    | Ok c_files =>
        match convert_each c_files output_dir 0
                (grow w [] (banner input_dir output_dir ++ found c_files)) with
        | (Ok success_count, w2) =>
            (Ok (if (success_count =? length c_files)%nat then 0%Z else 1%Z),
             grow w2 [] (closing success_count (length c_files) output_dir))
        | (Raise e, w2) => (Raise e, w2)
        end
    end.
Proof.
  intros Hp. unfold main.
  do 6 (rewrite print_then by (apply Hp; reflexivity)).
  unfold bind at 1. unfold glob_frames. cbn [listing say].
  assert (Eb : say (say (say (say (say (say w (PLine rule))
                 (PLine (str "LVGL C Array to BIN Converter"))) (PLine rule))
                 (PInputDir (path_str input_dir))) (POutputDir (path_str output_dir)))
                 (PLine [])
               = grow w [] (banner input_dir output_dir)).
  { rewrite !say_grow, !grow_grow. reflexivity. }
  rewrite Eb. clear Eb.
  destruct (listing w (path_str input_dir)) as [[| f l] | e]; [| |reflexivity].
  - rewrite print_then by (apply Hp; reflexivity).
    unfold ret. now rewrite say_grow, grow_grow.
  - set (c_files := f :: l).
    rewrite print_then by (apply Hp; reflexivity).
    rewrite print_names_run by (intros p H; apply Hp; exact H).
    rewrite print_then by (apply Hp; reflexivity).
    unfold bind at 1.
    rewrite !say_grow, !grow_grow. cbn [app].
    change (PFoundCount (length c_files)
            :: map (fun f0 => PFoundName (pp_name f0)) c_files ++ [PLine []])
      with (found c_files).
    assert (He : same_env w (grow w [] (banner input_dir output_dir ++ found c_files)))
      by apply grow_same_env.
    destruct (convert_each_run output_dir c_files 0 He) as (k & _ & Hw & _).
    destruct (convert_each c_files output_dir 0 _) as [[c | e] w2]; [|reflexivity].
    cbn [snd] in Hw. subst w2.
    do 11 (rewrite print_then by (apply Hp; reflexivity)).
    unfold ret. rewrite !say_grow, !grow_grow. reflexivity.
Qed.



End Batch.


Section Scanner.

Local Arguments Ascii.eqb : simpl never.

Lemma crun_app (q : cstate) (a b : text) : crun q (a ++ b) = crun (crun q a) b.
Proof. unfold crun. apply fold_left_app. Qed.

Lemma crun_hit (s : text) : crun Hit s = Hit.
Proof. induction s as [| c s IH]; simpl; [reflexivity | exact IH]. Qed.

Lemma cstep_c (q : cstate) : cstep q "c" = SawC \/ cstep q "c" = Hit.
Proof. destruct q; simpl; auto. Qed.

Lemma crun_spaces (q : cstate) (ws : text) :
  forallb is_space ws = true -> (1 <= length ws)%nat ->
  q = SawC \/ q = SawCSpace -> crun q ws = SawCSpace.
Proof.
  revert q. induction ws as [| c ws IH]; intros q H L Hq; simpl in L; [lia|].
  simpl in H. apply andb_true_iff in H as [Hc Hws].
  assert (E : cstep q c = SawCSpace).
  { destruct Hq as [-> | ->]; simpl; rewrite Hc;
      destruct (Ascii.eqb "c" c) eqn:Ec; try reflexivity;
      apply Ascii.eqb_eq in Ec; subst c; discriminate. }
  simpl. fold (crun (cstep q c) ws). rewrite E.
  destruct ws as [| d ws]; [reflexivity|].
  apply IH; [exact Hws | simpl; lia | now right].
Qed.

(** A text with [c], white space, [c] in it drives the scanner to [Hit]. *)
Lemma factor_hits (q : cstate) (pre ws post : text) :
  forallb is_space ws = true -> (1 <= length ws)%nat ->
  crun q (pre ++ "c"%char :: ws ++ "c"%char :: post) = Hit.
Proof.
  intros H L. rewrite crun_app.
  generalize (crun q pre). intros q'.
  simpl. fold (crun (cstep q' "c") (ws ++ "c"%char :: post)).
  destruct (cstep_c q') as [-> | ->]; [|apply crun_hit].
  assert (E : crun SawC ws = SawCSpace)
    by (apply crun_spaces; [exact H | exact L | now left]).
  rewrite crun_app, E. simpl. apply crun_hit.
Qed.

(** Every match of a pattern that starts with [static\s+const] starts with
    that shape. *)
Lemma before_ident_inv (r : regex) (s : text) (y : mstate) :
  In y (run (before_ident r) s None) ->
  exists ws rest, s = str "stati" ++ "c"%char :: ws ++ "c"%char :: rest
                  /\ forallb is_space ws = true /\ (1 <= length ws)%nat.
Proof.
  unfold before_ident. cbn [cat]. intros H.
  apply run_cat_inv in H as (x1 & H1 & H).
  apply run_cat_inv in H as (x2 & H2 & H).
  apply run_cat_inv in H as (x3 & H3 & _).
  apply run_lit_inv in H1. apply run_rep_inv in H2 as (ws & E2 & Hws & L).
  apply run_lit_inv in H3.
  exists ws, (str "onst" ++ fst x3). split; [|split; assumption].
  rewrite H1, E2, H3. reflexivity.
Qed.

Lemma search_needs_hit (r : regex) (s : text) :
  crun Idle s <> Hit -> search (before_ident r) s = None.
Proof.
  intros Hs. apply search_none. intros pre suf -> .
  unfold match_at.
  destruct (run (before_ident r) suf None) as [| y l] eqn:E; [reflexivity|].
  exfalso. apply Hs.
  destruct (@before_ident_inv r suf y) as (ws & rest & -> & Hws & L).
  { rewrite E. now left. }
  rewrite app_assoc. now apply factor_hits.
Qed.

(** *** The scanner on the pieces of the encoder's text *)

Lemma crun_no_space (q : cstate) (s : text) :
  no_space s = true -> calm q = true -> calm (crun q s) = true.
Proof.
  revert q. induction s as [| c s IH]; intros q H Hq; [exact Hq|].
  simpl in H. apply andb_true_iff in H as [Hc Hs]. apply negb_true_iff in Hc.
  simpl. fold (crun (cstep q c) s). apply IH; [exact Hs|].
  destruct q; try discriminate; simpl; rewrite Hc; destruct (Ascii.eqb "c" c); reflexivity.
Qed.

Lemma calm_cases (q : cstate) : calm q = true -> q = Idle \/ q = SawC.
Proof. destruct q; simpl; auto; discriminate. Qed.

Lemma crun_resets (q : cstate) (s : text) :
  resets s = true -> q <> Hit -> crun q s = Idle.
Proof.
  unfold resets. intros H Hq.
  destruct (crun Idle s) eqn:E1; try discriminate.
  destruct (crun SawC s) eqn:E2; try discriminate.
  destruct (crun SawCSpace s) eqn:E3; try discriminate.
  destruct q; congruence.
Qed.

End Scanner.

(** ** The tokens of an image *)

Section Stream.

Local Arguments Ascii.eqb : simpl never.

Lemma hexpair_table :
  forallb (fun n => let h := hexpair (Z.of_nat n) in
                    is_hex (fst h) && is_hex (snd h) && (byte_of h =? Z.of_nat n)%Z)
          (seq 0 256) = true.
Proof. vm_compute. reflexivity. Qed.

Lemma hexpair_byte (x : Z) :
  (0 <= x < 256)%Z ->
  is_hex (fst (hexpair x)) = true /\ is_hex (snd (hexpair x)) = true
  /\ byte_of (hexpair x) = x.
Proof.
  intros Hx. pose proof hexpair_table as T.
  rewrite forallb_forall in T. specialize (T (Z.to_nat x)).
  rewrite Z2Nat.id in T by lia.
  assert (Hin : In (Z.to_nat x) (seq 0 256)) by (apply in_seq; lia).
  specialize (T Hin). cbv zeta in T.
  apply andb_true_iff in T as [T T3]. apply andb_true_iff in T as [T1 T2].
  apply Z.eqb_eq in T3. auto.
Qed.

Lemma token_of_byte (x : Z) :
  (0 <= x < 256)%Z -> str "0x" ++ fmt_02x x = token (hexpair x).
Proof. intros Hx. now rewrite fmt_02x_byte. Qed.

Lemma map_flat_map {A B C} (f : B -> C) (g : A -> list B) (l : list A) :
  map f (flat_map g l) = flat_map (fun a => map f (g a)) l.
Proof.
  induction l as [| a l IH]; simpl; [reflexivity|].
  now rewrite map_app, IH.
Qed.

Lemma pixel_data_tokens (img : image) :
  pixel_data img = map token (map hexpair (packed_stream img)).
Proof.
  unfold pixel_data, packed_stream.
  rewrite map_map, map_flat_map.
  apply flat_map_ext. intros y.
  rewrite map_flat_map. apply flat_map_ext. intros x.
  destruct (getpixel img x y) as [[r g] b].
  unfold pixel_tokens. cbn [map].
  now rewrite !token_of_byte by apply low_byte_range.
Qed.

Lemma packed_stream_range (img : image) :
  Forall (fun x => 0 <= x < 256)%Z (packed_stream img).
Proof.
  unfold packed_stream. apply Forall_flat_map, Forall_forall. intros y _.
  apply Forall_flat_map, Forall_forall. intros x _.
  destruct (getpixel img x y) as [[r g] b].
  repeat constructor; apply low_byte_range.
Qed.

Lemma stream_pairs_hex (l : list Z) :
  Forall (fun x => 0 <= x < 256)%Z l ->
  forallb (fun h => is_hex (fst h) && is_hex (snd h)) (map hexpair l) = true
  /\ map byte_of (map hexpair l) = l.
Proof.
  induction 1 as [| x l Hx _ [IH1 IH2]]; [split; reflexivity|].
  destruct (hexpair_byte Hx) as (H1 & H2 & H3).
  cbn [map forallb]. rewrite H1, H2, H3, IH1, IH2. split; reflexivity.
Qed.

Lemma packed_stream_length (img : image) :
  length (packed_stream img) = (2 * width img * height img)%nat.
Proof.
  unfold packed_stream.
  rewrite (flat_map_const_length _ _ (k := (width img * 2)%nat)).
  - rewrite length_seq. lia.
  - intros y. rewrite (flat_map_const_length _ _ (k := 2%nat)).
    + now rewrite length_seq.
    + intros x. destruct (getpixel img x y) as [[r g] b]. reflexivity.
Qed.

(** *** [findall] over the rows *)

Lemma findall_clean (g rest : text) :
  forallb (fun c => negb (Ascii.eqb "0" c)) g = true ->
  findall hex_pattern (g ++ rest) = findall hex_pattern rest.
Proof.
  induction g as [| c g IH]; intros H; [reflexivity|].
  cbn [forallb] in H. apply andb_true_iff in H as [Hc Hg].
  apply negb_true_iff in Hc.
  cbn [app]. rewrite findall_miss; [now apply IH|].
  unfold occurs_at. destruct (g ++ rest) as [| b [| c' [| d s]]]; try reflexivity.
  now rewrite Hc.
Qed.

Lemma findall_join (ps : list (ascii * ascii)) (rest : text) :
  forallb (fun h => is_hex (fst h) && is_hex (snd h)) ps = true ->
  findall hex_pattern (join (str ", ") (map token ps) ++ rest)
  = map (fun h => [fst h; snd h]) ps ++ findall hex_pattern rest.
Proof.
  induction ps as [| h ps IH]; intros H; [reflexivity|].
  cbn [forallb] in H. apply andb_true_iff in H as [Hh Hps].
  apply andb_true_iff in Hh as [H1 H2].
  destruct ps as [| h' ps].
  - cbn [map join app]. now rewrite findall_hit.
  - change (join (str ", ") (map token (h :: h' :: ps)))
      with (token h ++ str ", " ++ join (str ", ") (map token (h' :: ps))).
    rewrite <- !app_assoc. rewrite findall_hit by assumption.
    rewrite findall_clean by reflexivity.
    rewrite IH by exact Hps. reflexivity.
Qed.

Lemma findall_row_line (ps : list (ascii * ascii)) (i : nat) (rest : text) :
  forallb (fun h => is_hex (fst h) && is_hex (snd h)) ps = true ->
  findall hex_pattern (row_line (map token ps) i ++ rest)
  = map (fun h => [fst h; snd h]) (firstn 16 (skipn i ps)) ++ findall hex_pattern rest.
Proof.
  intros H. unfold row_line, slice.
  replace (i + 16 - i)%nat with 16%nat by lia.
  rewrite skipn_map, firstn_map.
  rewrite <- !app_assoc. rewrite findall_clean by reflexivity.
  rewrite findall_join by (now apply forallb_firstn, forallb_skipn).
  f_equal.
  destruct (i + 16 <? length (map token ps))%nat.
  - rewrite <- app_assoc. now rewrite findall_clean by reflexivity.
  - now rewrite findall_clean by reflexivity.
Qed.

Lemma findall_row_lines (ps : list (ascii * ascii)) (idx : list nat) (rest : text) :
  forallb (fun h => is_hex (fst h) && is_hex (snd h)) ps = true ->
  findall hex_pattern (concat (map (row_line (map token ps)) idx) ++ rest)
  = map (fun h => [fst h; snd h]) (concat (map (fun i => firstn 16 (skipn i ps)) idx))
    ++ findall hex_pattern rest.
Proof.
  intros H. induction idx as [| i idx IH]; [reflexivity|].
  cbn [map concat]. rewrite <- app_assoc, findall_row_line by exact H.
  rewrite IH, map_app, <- app_assoc. reflexivity.
Qed.

Lemma findall_rows (ps : list (ascii * ascii)) (rest : text) :
  forallb (fun h => is_hex (fst h) && is_hex (snd h)) ps = true ->
  findall hex_pattern (rows (map token ps) ++ rest)
  = map (fun h => [fst h; snd h]) ps ++ findall hex_pattern rest.
Proof.
  intros H. unfold rows. rewrite findall_row_lines by exact H.
  f_equal. f_equal.
  unfold range_step. rewrite map_map, length_map.
  replace (length ps + 16 - 1)%nat with (length ps + 15)%nat by lia.
  erewrite map_ext; [rewrite chunks_concat|]; cycle 1.
  { intros k. cbv beta. now rewrite Nat.mul_comm. }
  apply firstn_all2. pose proof (line_count_bounds (length ps)). lia.
Qed.

(** The initializer written by the encoder decodes to the packed stream. *)
Lemma extract_initializer (c_file_path : text) (img : image) :
  (0 < width img * height img)%nat ->
  extract_bytes c_file_path ([nl] ++ rows (pixel_data img)) = Ok (packed_stream img).
Proof.
  intros Hsize.
  destruct (stream_pairs_hex (packed_stream_range img)) as [Hhex Hval].
  assert (F : findall hex_pattern ([nl] ++ rows (pixel_data img))
              = map (fun h => [fst h; snd h]) (map hexpair (packed_stream img))).
  { rewrite findall_clean by reflexivity.
    rewrite pixel_data_tokens.
    rewrite <- (app_nil_r (rows _)), findall_rows by exact Hhex.
    rewrite findall_nil. apply app_nil_r. }
  unfold extract_bytes. rewrite F.
  rewrite to_bytes_pairs by exact Hhex. rewrite Hval.
  pose proof (packed_stream_length img) as L.
  destruct (packed_stream img); [simpl in L; lia | reflexivity].
Qed.

End Stream.

Section EncoderText.

Local Arguments Ascii.eqb : simpl never.

Lemma encoder_text_pieces (img : image) (var_name : text) :
  convert_png_to_c img var_name
  = piece_open ++ var_name ++ piece_brace ++ rows (pixel_data img) ++
    piece_desc ++ var_name ++ piece_w ++ dec (width img) ++
    piece_h ++ dec (height img) ++ piece_size ++ dec (length (pixel_data img)) ++
    piece_data ++ var_name ++ piece_end.
Proof.
  unfold convert_png_to_c, array_open, array_close, descriptor,
    piece_open, piece_desc, array_close.
  rewrite <- !app_assoc. reflexivity.
Qed.

Lemma digits_no_space (d : Decimal.uint) :
  no_space (str (DecimalString.NilEmpty.string_of_uint d)) = true.
Proof. induction d; simpl; auto. Qed.

Lemma dec_no_space (n : nat) : no_space (dec n) = true.
Proof.
  unfold dec, DecimalString.NilZero.string_of_uint.
  destruct (Nat.to_uint n) eqn:E; try reflexivity; rewrite <- E; apply digits_no_space.
Qed.

Lemma word_no_space (s : text) : forallb is_word s = true -> no_space s = true.
Proof.
  induction s as [| c s IH]; simpl; intros H; [reflexivity|].
  apply andb_true_iff in H as [Hc Hs].
  now rewrite (word_not_space _ Hc), IH.
Qed.

Lemma calm_not_hit (q : cstate) : calm q = true -> q <> Hit.
Proof. destruct q; simpl; congruence. Qed.

Lemma crun_clean (q : cstate) (s : text) :
  forallb (fun c => negb (Ascii.eqb "c" c)) s = true -> q <> Hit -> crun q s <> Hit.
Proof.
  revert q. induction s as [| c s IH]; intros q H Hq; [exact Hq|].
  cbn [forallb] in H. apply andb_true_iff in H as [Hc Hs]. apply negb_true_iff in Hc.
  simpl. fold (crun (cstep q c) s). apply IH; [exact Hs|].
  destruct q; simpl; rewrite ?Hc; try destruct (is_space c); congruence.
Qed.

Lemma crun_token (q : cstate) (h : ascii * ascii) :
  is_hex (fst h) = true -> is_hex (snd h) = true -> q <> Hit ->
  calm (crun q (token h)) = true.
Proof.
  intros H1 H2 Hq. unfold token.
  change ("0"%char :: "x"%char :: [fst h; snd h]) with (str "0x" ++ [fst h; snd h]).
  rewrite crun_app.
  assert (E : crun q (str "0x") = Idle) by (destruct q; [reflexivity.. | congruence]).
  rewrite E. apply crun_no_space; [|reflexivity].
  apply word_no_space. simpl. now rewrite !hex_is_word.
Qed.

Lemma crun_join (q : cstate) (ps : list (ascii * ascii)) :
  forallb (fun h => is_hex (fst h) && is_hex (snd h)) ps = true -> q <> Hit ->
  crun q (join (str ", ") (map token ps)) <> Hit.
Proof.
  revert q. induction ps as [| h ps IH]; intros q H Hq; [exact Hq|].
  cbn [forallb] in H. apply andb_true_iff in H as [Hh Hps].
  apply andb_true_iff in Hh as [H1 H2].
  pose proof (crun_token h H1 H2 Hq) as Hc.
  destruct ps as [| h' ps].
  - cbn [map join]. now apply calm_not_hit.
  - change (join (str ", ") (map token (h :: h' :: ps)))
      with (token h ++ str ", " ++ join (str ", ") (map token (h' :: ps))).
    rewrite !crun_app. apply IH; [exact Hps|].
    apply calm_cases in Hc as [-> | ->]; discriminate.
Qed.

Lemma crun_row_line (q : cstate) (ps : list (ascii * ascii)) (i : nat) :
  forallb (fun h => is_hex (fst h) && is_hex (snd h)) ps = true -> q <> Hit ->
  crun q (row_line (map token ps) i) <> Hit.
Proof.
  intros H Hq. unfold row_line, slice.
  rewrite skipn_map, firstn_map, !crun_app.
  apply crun_clean; [destruct (_ <? _)%nat; reflexivity|].
  apply crun_join; [now apply forallb_firstn, forallb_skipn|].
  now apply crun_clean.
Qed.

Lemma crun_rows (q : cstate) (ps : list (ascii * ascii)) :
  forallb (fun h => is_hex (fst h) && is_hex (snd h)) ps = true -> q <> Hit ->
  crun q (rows (map token ps)) <> Hit.
Proof.
  intros H. unfold rows.
  generalize (range_step (length (map token ps)) 16). intros idx.
  revert q. induction idx as [| i idx IH]; intros q Hq; [exact Hq|].
  cbn [map concat]. rewrite crun_app. apply IH. now apply crun_row_line.
Qed.

Lemma crun_fixed (q : cstate) (a rest : text) :
  resets a = true -> q <> Hit -> crun q (a ++ rest) = crun Idle rest.
Proof. intros H Hq. rewrite crun_app. now rewrite (@crun_resets q a H Hq). Qed.

Lemma crun_var (q : cstate) (v a rest : text) :
  no_space v = true -> resets a = true -> calm q = true ->
  crun q (v ++ a ++ rest) = crun Idle rest.
Proof.
  intros Hv Ha Hq. rewrite crun_app. apply crun_fixed; [exact Ha|].
  apply calm_not_hit. now apply crun_no_space.
Qed.

(** The encoder never writes [c], white space, [c]. *)
Lemma encoder_text_never_hits (img : image) (var_name : text) :
  no_space var_name = true -> crun Idle (convert_png_to_c img var_name) <> Hit.
Proof.
  intros Hn. rewrite encoder_text_pieces.
  rewrite crun_fixed by (reflexivity || discriminate).
  rewrite crun_var by (trivial; reflexivity).
  rewrite crun_app.
  assert (Hr : crun Idle (rows (pixel_data img)) <> Hit).
  { rewrite pixel_data_tokens. apply crun_rows; [|discriminate].
    apply stream_pairs_hex, packed_stream_range. }
  rewrite crun_fixed by (reflexivity || exact Hr).
  rewrite crun_var by (trivial; reflexivity).
  rewrite crun_var by (trivial; reflexivity || apply dec_no_space).
  rewrite crun_var by (trivial; reflexivity || apply dec_no_space).
  rewrite crun_var by (trivial; reflexivity || apply dec_no_space).
  rewrite crun_app.
  pose proof (crun_no_space Idle var_name Hn eq_refl) as Hc.
  rewrite crun_resets; [discriminate | reflexivity | now apply calm_not_hit].
Qed.

Lemma encoder_text_no_match (r : regex) (img : image) (var_name : text) :
  no_space var_name = true ->
  search (before_ident r) (convert_png_to_c img var_name) = None.
Proof. intros Hn. apply search_needs_hit. now apply encoder_text_never_hits. Qed.

(** *** With [static] in front of the declaration *)

Lemma match_at_wrong_start (r : regex) (c : ascii) (s : text) :
  Ascii.eqb "s" c = false -> match_at (before_ident r) (c :: s) = None.
Proof.
  intros H. unfold match_at, before_ident. cbn [cat run].
  change (str "static") with ("s"%char :: str "tatic").
  now rewrite lit_match_head.
Qed.

Lemma search_skip_clean (r : regex) (pre s : text) :
  forallb (fun c => negb (Ascii.eqb "s" c)) pre = true ->
  search (before_ident r) (pre ++ s) = search (before_ident r) s.
Proof.
  induction pre as [| c pre IH]; intros H; [reflexivity|].
  cbn [forallb] in H. apply andb_true_iff in H as [Hc Hp]. apply negb_true_iff in Hc.
  cbn [app]. rewrite search_skip by (now apply match_at_wrong_start). now apply IH.
Qed.

Lemma with_static_shape (img : image) (var_name : text) :
  with_static img var_name
  = header ++
    render (encoder_decl var_name ([nl] ++ rows (pixel_data img))) ++
    (str ";" ++ [nl; nl] ++ descriptor img var_name (length (pixel_data img))).
Proof.
  unfold with_static, render, encoder_decl, array_open, array_close.
  cbn [ws_static ws_const attr bits16 ws_type ident ws_eq1 ws_eq2 body].
  rewrite <- !app_assoc. reflexivity.
Qed.

Lemma forallb_app_true {A} (p : A -> bool) (l1 l2 : list A) :
  forallb p l1 = true -> forallb p l2 = true -> forallb p (l1 ++ l2) = true.
Proof. intros H1 H2. rewrite forallb_app. now rewrite H1, H2. Qed.

Lemma rows_forall (p : ascii -> bool) (pd : list text) :
  p " "%char = true -> p ","%char = true -> p nl = true ->
  forallb (forallb p) pd = true -> forallb p (rows pd) = true.
Proof.
  intros Hs Hc Hn Hpd. unfold rows.
  generalize (range_step (length pd) 16). intros idx.
  induction idx as [| i idx IH]; [reflexivity|].
  cbn [map concat]. apply forallb_app_true; [|exact IH].
  unfold row_line, slice.
  apply forallb_app_true; [simpl; now rewrite Hs|].
  apply forallb_app_true.
  - assert (Hrow : forallb (forallb p) (firstn (i + 16 - i) (skipn i pd)) = true)
      by (now apply forallb_firstn, forallb_skipn).
    revert Hrow. generalize (firstn (i + 16 - i) (skipn i pd)). intros row.
    induction row as [| t row IHr]; intros Hrow; [reflexivity|].
    cbn [forallb] in Hrow. apply andb_true_iff in Hrow as [Ht Hrow].
    destruct row as [| t' row]; [exact Ht|].
    change (join (str ", ") (t :: t' :: row))
      with (t ++ str ", " ++ join (str ", ") (t' :: row)).
    apply forallb_app_true; [exact Ht|].
    apply forallb_app_true; [simpl; now rewrite Hc, Hs | now apply IHr].
  - destruct (_ <? _)%nat; simpl; now rewrite ?Hc, Hn.
Qed.

Lemma token_no_rbrace (h : ascii * ascii) :
  is_hex (fst h) = true -> is_hex (snd h) = true -> forallb not_rbrace (token h) = true.
Proof.
  intros H1 H2. unfold token. cbn [forallb].
  assert (N : forall c, is_hex c = true -> not_rbrace c = true).
  { intros c Hc. unfold not_rbrace. apply negb_true_iff, Nat.eqb_neq.
    unfold is_hex in Hc.
    apply orb_true_iff in Hc as [Hc | Hc]; [apply orb_true_iff in Hc as [Hc | Hc]|];
      apply between_bounds in Hc; lia. }
  now rewrite (N _ H1), (N _ H2).
Qed.

Lemma initializer_no_rbrace (img : image) :
  forallb not_rbrace ([nl] ++ rows (pixel_data img)) = true.
Proof.
  apply forallb_app_true; [reflexivity|].
  apply rows_forall; try reflexivity.
  rewrite pixel_data_tokens.
  destruct (stream_pairs_hex (packed_stream_range img)) as [Hhex _].
  revert Hhex. generalize (map hexpair (packed_stream img)). intros ps.
  induction ps as [| h ps IH]; intros H; [reflexivity|].
  cbn [forallb map] in *. apply andb_true_iff in H as [Hh Hps].
  apply andb_true_iff in Hh as [H1 H2].
  now rewrite token_no_rbrace, IH.
Qed.

Lemma map_suffix_app (name : text) :
  (1 <= length name)%nat -> has_map_suffix (name ++ str "_map") = true.
Proof.
  intros L. unfold has_map_suffix. rewrite length_app.
  change (length (str "_map")) with 4%nat.
  replace (length name + 4 - 4)%nat with (length name) by lia.
  rewrite skipn_app, skipn_all, Nat.sub_diag. simpl skipn.
  apply andb_true_iff. split; [apply Nat.leb_le; lia|].
  unfold text_eqb. destruct (list_eq_dec ascii_dec _ _); [reflexivity | now elim n].
Qed.

Lemma encoder_decl_valid (img : image) (var_name : text) :
  identifier var_name = true ->
  valid (encoder_decl var_name ([nl] ++ rows (pixel_data img))) = true.
Proof.
  unfold identifier. intros H. apply andb_true_iff in H as [Hne Hw].
  unfold valid, encoder_decl.
  cbn [ws_static ws_const attr bits16 ws_type ident ws_eq1 ws_eq2 body].
  rewrite initializer_no_rbrace.
  rewrite (forallb_app_true is_word var_name (str "_map") Hw eq_refl).
  apply nonempty_spec in Hne.
  assert (N : nonempty (var_name ++ str "_map") = true).
  { unfold nonempty. apply negb_true_iff, Nat.eqb_neq. rewrite length_app. lia. }
  rewrite N. reflexivity.
Qed.

Lemma with_static_decodes (c_file_path : text) (img : image) (var_name : text) :
  identifier var_name = true -> (0 < width img * height img)%nat ->
  search array_pattern_map (with_static img var_name)
  = Some (str ";" ++ [nl; nl] ++ descriptor img var_name (length (pixel_data img)),
          Some ([nl] ++ rows (pixel_data img)))
  /\ parse_content c_file_path (with_static img var_name) = Ok (packed_stream img).
Proof.
  intros Hid Hsize.
  assert (E : search array_pattern_map (with_static img var_name)
              = Some (str ";" ++ [nl; nl] ++
                        descriptor img var_name (length (pixel_data img)),
                      Some ([nl] ++ rows (pixel_data img)))).
  { rewrite with_static_shape.
    change array_pattern_map
      with (before_ident (Cat (Rep is_word 1) (Cat (Lit (str "_map")) after_ident))).
    rewrite search_skip_clean by reflexivity.
    apply search_found.
    apply (accept_map (encoder_decl var_name ([nl] ++ rows (pixel_data img)))).
    - now apply encoder_decl_valid.
    - apply map_suffix_app. unfold identifier in Hid.
      apply andb_true_iff in Hid as [Hne _]. now apply nonempty_spec. }
  split; [exact E|].
  unfold parse_content. rewrite E. now apply extract_initializer.
Qed.

End EncoderText.

(** C1 (as amended): for an image with at least one pixel and an
    identifier as variable name, the text written by the encoder has no
    declaration that the decoder's patterns accept, because its array
    declaration does not start with [static]: the decoder raises the
    extraction error.  The text between the braces of that declaration
    decodes to the packed pixel stream, and so does the whole text once
    [static ] stands in front of the declaration. *)
Theorem encoder_text_needs_static
    (c_file_path var_name : text) (img : image)
    (Hname : identifier var_name = true)
    (Hsize : (0 < width img * height img)%nat) :
  let pd := pixel_data img in
  convert_png_to_c img var_name
  = header ++ str "const LV_ATTRIBUTE_MEM_ALIGN uint8_t " ++ var_name ++
    str "_map[] = {" ++ ([nl] ++ rows pd) ++ str "}" ++
    str ";" ++ [nl; nl] ++ descriptor img var_name (length pd)
  /\ search array_pattern_map (convert_png_to_c img var_name) = None
  /\ search array_pattern_any (convert_png_to_c img var_name) = None
  /\ parse_content c_file_path (convert_png_to_c img var_name)
     = Raise (ValueError (str "Could not find pixel data array in " ++ c_file_path))
  /\ extract_bytes c_file_path ([nl] ++ rows pd) = Ok (packed_stream img)
  /\ length (packed_stream img) = (2 * width img * height img)%nat
  /\ search array_pattern_map (with_static img var_name)
     = Some (str ";" ++ [nl; nl] ++ descriptor img var_name (length pd),
             Some ([nl] ++ rows pd))
  /\ parse_content c_file_path (with_static img var_name) = Ok (packed_stream img).
Proof.
  intros pd.
  assert (Hn : no_space var_name = true).
  { unfold identifier in Hname. apply andb_true_iff in Hname as [_ Hw].
    now apply word_no_space. }
  assert (N1 : search array_pattern_map (convert_png_to_c img var_name) = None).
  { change array_pattern_map
      with (before_ident (Cat (Rep is_word 1) (Cat (Lit (str "_map")) after_ident))).
    now apply encoder_text_no_match. }
  assert (N2 : search array_pattern_any (convert_png_to_c img var_name) = None).
  { change array_pattern_any with (before_ident (Cat (Rep is_word 1) after_ident)).
    now apply encoder_text_no_match. }
  destruct (with_static_decodes c_file_path img var_name Hname Hsize) as [S1 S2].
  repeat apply conj.
  - unfold convert_png_to_c, array_open, array_close. fold pd.
    rewrite <- !app_assoc. reflexivity.
  - exact N1.
  - exact N2.
  - unfold parse_content. now rewrite N1, N2.
  - now apply extract_initializer.
  - apply packed_stream_length.
  - exact S1.
  - exact S2.
Qed.

Lemma encoder_text_needs_static_witness :
  (identifier (str "anim_frame_0") = true
   /\ (0 < width red_green * height red_green)%nat)
  /\ parse_content (str "anim_frame_0.c") (with_static red_green (str "anim_frame_0"))
     = Ok (packed_stream red_green).
Proof.
  split; [split; [reflexivity | simpl; lia]|].
  apply (@encoder_text_needs_static (str "anim_frame_0.c") (str "anim_frame_0") red_green);
    [reflexivity | simpl; lia].
Defined.

(** C1 as stated fails: the decoder does not accept the text that the
    encoder writes for the 2x1 red/green image. *)
Lemma encoder_text_rejected :
  search array_pattern_map (convert_png_to_c red_green (str "anim_frame_0")) = None
  /\ search array_pattern_any (convert_png_to_c red_green (str "anim_frame_0")) = None
  /\ parse_content (str "anim_frame_0.c") (convert_png_to_c red_green (str "anim_frame_0"))
     <> Ok (packed_stream red_green).
Proof.
  split; [vm_compute; reflexivity|]. split; [vm_compute; reflexivity|].
  intros H. vm_compute in H. discriminate.
Qed.



(** * Further properties *)

(** ** What the decoder can return *)

Section DecoderOutcomes.

Local Arguments Ascii.eqb : simpl never.

Lemma interleave_length (items : list (text * (ascii * ascii))) (tail : text) :
  (4 * length items <= length (interleave items tail))%nat.
Proof.
  induction items as [| [g h] items IH]; cbn [interleave length]; [lia|].
  rewrite !length_app. unfold token. simpl length. lia.
Qed.

Lemma byte_of_range (hs : list (ascii * ascii)) :
  forallb (fun h => is_hex (fst h) && is_hex (snd h)) hs = true ->
  Forall (fun b => 0 <= b < 256)%Z (map byte_of hs).
Proof.
  induction hs as [| h hs IH]; intros H; [constructor|].
  cbn [forallb] in H. apply andb_true_iff in H as [Hh Hs].
  apply andb_true_iff in Hh as [H1 H2].
  cbn [map]. constructor; [now apply int16_pair | now apply IH].
Qed.

Lemma extract_bytes_cases (c_file_path array_str : text) :
  (findall hex_pattern array_str = []
   /\ extract_bytes c_file_path array_str
      = Raise (ValueError (str "Could not parse hex values from array in " ++ c_file_path)))
  \/ (exists data,
        extract_bytes c_file_path array_str = Ok data
        /\ length data = length (findall hex_pattern array_str)
        /\ (1 <= length data)%nat /\ (4 * length data <= length array_str)%nat
        /\ Forall (fun b => 0 <= b < 256)%Z data).
Proof.
  destruct (@cut_exists (length array_str) array_str (le_n _))
    as (items & tail & -> & Hw).
  pose proof (findall_interleave items tail Hw) as F.
  pose proof (well_cut_digits items tail Hw) as Hd.
  unfold extract_bytes. rewrite F.
  destruct items as [| it items]; [left; split; reflexivity|].
  right. exists (map byte_of (map snd (it :: items))).
  rewrite <- (map_map snd (fun h => [fst h; snd h])).
  rewrite to_bytes_pairs by exact Hd.
  split; [reflexivity|].
  rewrite !length_map.
  split; [reflexivity|]. split; [simpl; lia|].
  split; [apply interleave_length | now apply byte_of_range].
Qed.

End DecoderOutcomes.


(** X2: the bytes extracted from an initializer are as many as its
    non-overlapping tokens, and each takes at least four characters of it:
    the output is never longer than a quarter of the initializer. *)
Theorem extract_bytes_size (c_file_path array_str : text) (data : list Z)
    (H : extract_bytes c_file_path array_str = Ok data) :
  length data = length (findall hex_pattern array_str)
  /\ (1 <= length data)%nat
  /\ (4 * length data <= length array_str)%nat.
Proof.
  destruct (extract_bytes_cases c_file_path array_str)
    as [[_ E] | (data' & E & L1 & L2 & L3 & _)]; rewrite E in H; [discriminate|].
  injection H as <-. auto.
Qed.

Lemma extract_bytes_size_witness :
  extract_bytes (str "f.c") (str " 0x01,0x0203 ") = Ok [1; 2]%Z
  /\ (4 * length [1; 2]%Z <= length (str " 0x01,0x0203 "))%nat.
Proof.
  split; [reflexivity|].
  apply (@extract_bytes_size (str "f.c") (str " 0x01,0x0203 ") [1; 2]%Z eq_refl).
Defined.

(** ** One conversion and the batch *)

(** The case that holds, found by trying them in turn. *)
Ltac pick :=
  lazymatch goal with
  | |- _ \/ _ => first [solve [left; pick] | solve [right; pick]]
  | |- _ /\ _ => split; pick
  | |- exists _, _ => eexists; pick
  | |- _ => first [reflexivity | eassumption | (rewrite ?app_nil_r; reflexivity)
                   | congruence]
  end.

(** X3: what one call of [convert_c_to_bin] leaves, in every world.  When
    it returns [True] the source was read and parsed, the write went
    through, exactly one file was added, at [Path(output_dir) / (stem +
    '.bin')], with exactly the parsed bytes, and the two lines [Extracted]
    and [Created] were printed.  In every other outcome nothing was added,
    or one file was, at that path, because the write broke after the file
    was opened (it holds the bytes that got through) or because the
    [Created] line could not be printed (it holds all the bytes).  When it
    returns [False] it printed the [not found] line for a missing file, or
    the [Failed] line with the error of the read, of the parse or of the
    print of the [Extracted] line, or the [Extracted] line and then the
    [Failed] line with the error of the write or of the print of the
    [Created] line.  An error leaves the call only from the existence test
    or from the print of the [not found] or [Failed] line. *)
Theorem convert_writes_only_on_success (w : world) (c_file_path output_dir : pathlike) :
  let c_path := as_path c_file_path in
  let name := path_str c_path in
  let bin_path := path_str (truediv (as_path output_dir) (pp_stem c_path ++ str ".bin")) in
  let run := convert_c_to_bin c_file_path output_dir w in
  let w' := snd run in
  (fst run = Ok true ->
     exists content data,
       files w name = Readable content
       /\ parse_content name content = Ok data
       /\ on_write w bin_path = Written
       /\ written w' = written w ++ [(bin_path, data)]
       /\ console w'
          = console w ++ [PExtracted (length data) name; PCreated bin_path (length data)])
  /\ (fst run <> Ok true ->
      written w' = written w
      \/ (exists content data,
            files w name = Readable content
            /\ parse_content name content = Ok data
            /\ print_fault w (PExtracted (length data) name) = None
            /\ ((exists kept e,
                   on_write w bin_path = WriteBroken kept e
                   /\ written w' = written w ++ [(bin_path, firstn kept data)])
                \/ (exists e,
                      on_write w bin_path = Written
                      /\ print_fault w (PCreated bin_path (length data)) = Some e
                      /\ written w' = written w ++ [(bin_path, data)]))))
  /\ (fst run = Ok false ->
      (files w name = Absent
       /\ console w' = console w ++ [PNotFound (fstr c_file_path)])
      \/ (exists e,
            console w' = console w ++ [PFailed name e]
            /\ (files w name = Unreadable e
                \/ (exists content,
                      files w name = Readable content
                      /\ (parse_content name content = Raise e
                          \/ (exists data,
                                parse_content name content = Ok data
                                /\ print_fault w (PExtracted (length data) name)
                                   = Some e)))))
      \/ (exists content data e,
            files w name = Readable content
            /\ parse_content name content = Ok data
            /\ console w'
               = console w ++ [PExtracted (length data) name; PFailed name e]
            /\ (on_write w bin_path = WriteRefused e
                \/ (exists kept, on_write w bin_path = WriteBroken kept e)
                \/ (on_write w bin_path = Written
                    /\ print_fault w (PCreated bin_path (length data)) = Some e))))
  /\ (forall e, fst run = Raise e ->
      files w name = Inaccessible e
      \/ (files w name = Absent
          /\ print_fault w (PNotFound (fstr c_file_path)) = Some e)
      \/ (exists e0, files w name <> Absent
                     /\ print_fault w (PFailed name e0) = Some e))
  /\ same_env w w'.
Proof.
  intros c_path name bin_path run w'. unfold w', run, bin_path, name, c_path.
  fold (bin_path_for (as_path output_dir) (as_path c_file_path)).
  convert_cases w c_file_path output_dir.
  all: (split; [intros H; try discriminate H
               | split; [intros H; try (now elim H)
                        | split; [intros H; try discriminate H
                                 | split; [intros e' H; try discriminate H
                                          | first [apply same_env_refl
                                                  | apply grow_same_env]]]]]).
  all: try (injection H as <-).
  all: pick.
Qed.

Lemma convert_writes_only_on_success_witness :
  (let run := convert_c_to_bin (OfStr (str "in/./frame1.c")) (OfStr (str "."))
                sample_world in
   fst run = Ok true
   /\ written (snd run) = [(str "frame1.bin", [1; 2; 255]%Z)])
  /\ (let run := convert_c_to_bin (OfStr (str "in/frame1.c")) (OfStr (str "out/"))
                   full_disk_world in
      fst run = Ok false
      /\ written (snd run) = [(str "out/frame1.bin", [1; 2]%Z)]).
Proof.
  cbv zeta. split.
  - destruct (convert_writes_only_on_success sample_world
                (OfStr (str "in/./frame1.c")) (OfStr (str "."))) as (S & _).
    assert (R : fst (convert_c_to_bin (OfStr (str "in/./frame1.c")) (OfStr (str "."))
                       sample_world) = Ok true) by (vm_compute; reflexivity).
    split; [exact R|].
    destruct (S R) as (content & data & Hf & Hp & _ & Hw & _).
    rewrite Hw. vm_compute in Hf. injection Hf as <-. vm_compute in Hp.
    injection Hp as <-. vm_compute. reflexivity.
  - destruct (convert_writes_only_on_success full_disk_world
                (OfStr (str "in/frame1.c")) (OfStr (str "out/"))) as (_ & S & _).
    assert (R : fst (convert_c_to_bin (OfStr (str "in/frame1.c")) (OfStr (str "out/"))
                       full_disk_world) = Ok false) by (vm_compute; reflexivity).
    split; [exact R|].
    destruct S as [Hw | (content & data & Hf & Hp & _ & [(kept & e & Ho & Hw) | (e & Ho & _)])].
    + rewrite R. discriminate.
    + vm_compute in Hw. discriminate.
    + rewrite Hw. vm_compute in Hf. injection Hf as <-. vm_compute in Hp.
      injection Hp as <-. vm_compute in Ho. injection Ho as <- _.
      vm_compute. reflexivity.
    + vm_compute in Ho. discriminate.
Defined.

Section Conversions.

(** A call adds at most one file, and one when it returns [True]. *)
Lemma produced_bounds (w : world) (out f : ppath) :
  ((if converts w out f then 1 else 0) <= length (produced w out f) <= 1)%nat.
Proof.
  unfold converts, produced.
  convert_cases w (OfPath f) (OfPath out); cbn; lia.
Qed.

Lemma produced_count (w : world) (out : ppath) (fs : list ppath) :
  (length (filter (converts w out) fs) <= length (flat_map (produced w out) fs)
   <= length fs)%nat.
Proof.
  induction fs as [| f fs IH]; [simpl; lia|].
  cbn [flat_map filter]. rewrite length_app.
  pose proof (produced_bounds w out f) as B.
  destruct (converts w out f); simpl; lia.
Qed.

(** A print in front of a statement: it raises, or the statement runs. *)
Lemma print_post {A} (p : printed) (k : M A) (w : world)
    (Q : result A * world -> Prop) :
  (forall e, Q (Raise e, w)) -> Q (k (say w p)) -> Q ((print p ;; k) w).
Proof.
  intros H1 H2. unfold bind, print. destruct (print_fault w p); auto.
Qed.

Lemma print_names_post {A} (fs : list ppath) (k : M A) (w : world)
    (Q : result A * world -> Prop) :
  (forall dc e, Q (Raise e, grow w [] dc)) ->
  (forall dc, Q (k (grow w [] dc))) ->
  Q ((print_names fs ;; k) w).
Proof.
  revert w. induction fs as [| f fs IH]; intros w H1 H2.
  - cbn. specialize (H2 []). now rewrite grow_nil in H2.
  - cbn [print_names]. rewrite bind_assoc. apply print_post.
    + intros e. specialize (H1 [] e). now rewrite grow_nil in H1.
    + apply IH.
      * intros dc e. rewrite say_grow, grow_grow. apply H1.
      * intros dc. rewrite say_grow, grow_grow. apply H2.
Qed.

(** What a batch has written when it ends, however it ends. *)
Lemma main_written (w : world) (input_dir output_dir : ppath) :
  let c_files := discovered w input_dir in
  let run := main input_dir output_dir w in
  exists k,
    (k <= length c_files)%nat
    /\ written (snd run)
       = written w ++ flat_map (produced w output_dir) (firstn k c_files)
    /\ (forall status, fst run = Ok status -> k = length c_files).
Proof.
  intros c_files run. unfold run.
  set (Q := fun r : result Z * world =>
              exists k,
                (k <= length c_files)%nat
                /\ written (snd r)
                   = written w ++ flat_map (produced w output_dir) (firstn k c_files)
                /\ (forall status, fst r = Ok status -> k = length c_files)).
  change (Q (main input_dir output_dir w)).
  assert (Q0 : forall e w1, written w1 = written w -> Q (Raise e, w1)).
  { intros e w1 E. exists 0%nat. cbn. rewrite E, app_nil_r.
    split; [lia|]. split; [reflexivity | discriminate]. }
  unfold main.
  do 6 (apply print_post; [intros e; now apply Q0|]).
  unfold bind at 1. unfold glob_frames. cbn [listing say].
  unfold c_files, discovered in *.
  destruct (listing w (path_str input_dir)) as [[| f l] | e].
  - apply print_post; [intros e; now apply Q0|].
    exists 0%nat. cbn. rewrite app_nil_r. auto.
  - set (fs := f :: l) in *.
    apply print_post; [intros e; now apply Q0|].
    apply print_names_post;
      [intros dc e; apply Q0; cbn; now rewrite app_nil_r|]. intros dc.
    apply print_post; [intros e; apply Q0; cbn; now rewrite app_nil_r|].
    unfold bind at 1.
    match goal with
    | |- context [convert_each fs output_dir 0 ?W] =>
        assert (He : same_env w W) by (repeat split);
        destruct (convert_each_run output_dir fs 0 He) as (k & Hk & Hw & Hr);
        destruct (convert_each fs output_dir 0 W) as [[c | e] w2]
    end; cbn [fst snd] in Hw, Hr.
    + destruct Hr as [-> _]. rewrite firstn_all in Hw.
      assert (Q1 : forall r w3,
                written w3 = written w ++ flat_map (produced w output_dir) fs ->
                Q (r, w3)).
      { intros r w3 E. exists (length fs). rewrite firstn_all. cbn [fst snd]. auto. }
      subst w2.
      do 11 (apply print_post; [intros e; apply Q1; cbn; now rewrite app_nil_r|]).
      apply Q1. cbn. now rewrite app_nil_r.
    + exists k. subst w2. cbn [fst snd].
      split; [exact Hk|]. split; [cbn; now rewrite app_nil_r | discriminate].
  - now apply Q0.
Qed.

End Conversions.

(** X4: the files a batch leaves.  However the run ends, it has added the
    files of the calls of [convert_c_to_bin] that it made, on the discovered
    files in the order of the listing up to the one that stopped it, each
    as a single call from the initial state adds them, and nothing else;
    over the whole listing these are at least as many files as calls that
    return [True], and at most one file for each discovered file.  When no
    existence test and no print outside the [try] block raises, every
    discovered file is processed: the console then shows the banner, the
    list of names, the lines of each file in the order of the listing, the
    tally of the calls that returned [True] and the next steps. *)
Theorem main_writes_successes (w : world) (input_dir output_dir : ppath) :
  let c_files := discovered w input_dir in
  let ok := converts w output_dir in
  let run := main input_dir output_dir w in
  let w' := snd run in
  (exists k,
     (k <= length c_files)%nat
     /\ written w' = written w ++ flat_map (produced w output_dir) (firstn k c_files)
     /\ (forall status, fst run = Ok status -> k = length c_files))
  /\ (length (filter ok c_files) <= length (flat_map (produced w output_dir) c_files)
      <= length c_files)%nat
  /\ ((forall p, in_try p = false -> print_fault w p = None) ->
      (forall f e, In f c_files -> files w (path_str f) <> Inaccessible e) ->
      c_files <> [] ->
      written w' = written w ++ flat_map (produced w output_dir) c_files
      /\ console w'
         = console w ++ banner input_dir output_dir ++ found c_files
           ++ flat_map (reported w output_dir) c_files
           ++ closing (length (filter ok c_files)) (length c_files) output_dir).
Proof.
  intros c_files ok run w'.
  split; [apply main_written|]. split; [apply produced_count|].
  intros Hp Hs Hne. unfold w', run. rewrite (@main_run w input_dir output_dir Hp).
  unfold c_files, discovered in *.
  destruct (listing w (path_str input_dir)) as [[| f l] | e]; try (now elim Hne).
  set (fs := f :: l) in *.
  rewrite (@convert_each_contained w output_dir fs _ 0 Hp Hs (grow_same_env _ _ _)).
  cbn [snd]. rewrite written_grow, console_grow, written_grow, console_grow.
  rewrite written_grow, console_grow. fold ok.
  rewrite !app_nil_r, <- !app_assoc. split; reflexivity.
Qed.

Lemma main_writes_successes_witness :
  written (snd (main (Path (str "in")) (Path (str "out")) sample_world))
  = [ (str "out/frame1.bin", [1; 2; 255]%Z); (str "out/frame6.bin", [16%Z]) ]
  /\ written (snd (main (Path (str "in")) (Path (str "out")) full_disk_world))
     = [ (str "out/frame1.bin", [1; 2]%Z) ].
Proof.
  split.
  - destruct (main_writes_successes sample_world (Path (str "in")) (Path (str "out")))
      as (_ & _ & E).
    destruct E as [E _].
    + intros p _. reflexivity.
    + intros f e _. unfold sample_world. cbn [files].
      repeat destruct (text_eqb _ _); discriminate.
    + discriminate.
    + rewrite E. vm_compute. reflexivity.
  - destruct (main_writes_successes full_disk_world (Path (str "in")) (Path (str "out")))
      as (_ & _ & E).
    destruct E as [E _].
    + intros p _. reflexivity.
    + intros f e _. discriminate.
    + discriminate.
    + rewrite E. vm_compute. reflexivity.
Defined.

(** ** Names of the output files *)

Section Names.

Local Arguments Ascii.eqb : simpl never.

Lemma name_from_no_slash (acc s : text) :
  no_slash s = true -> name_from acc s = acc ++ s.
Proof.
  revert acc. induction s as [| c s IH]; intros acc H; simpl.
  - now rewrite app_nil_r.
  - cbn [no_slash forallb] in H. apply andb_true_iff in H as [Hc Hs].
    apply negb_true_iff in Hc. rewrite Hc. rewrite IH by exact Hs.
    now rewrite <- app_assoc.
Qed.

Lemma name_from_after_slash (acc a s : text) :
  name_from acc (a ++ "/"%char :: s) = name_from [] s.
Proof.
  revert acc. induction a as [| c a IH]; intros acc; simpl.
  - reflexivity.
  - destruct (Ascii.eqb c "/"); apply IH.
Qed.

Lemma path_name_child (dir name : text) :
  no_slash name = true -> path_name (dir ++ str "/" ++ name) = name.
Proof.
  intros H. unfold path_name. change (str "/" ++ name) with ("/"%char :: name).
  rewrite name_from_after_slash. now apply name_from_no_slash.
Qed.

Lemma rfind_dot_suffix_c (base : text) :
  rfind_dot (base ++ str ".c") = Some (length base).
Proof.
  induction base as [| c base IH]; [reflexivity|].
  cbn [app rfind_dot length]. now rewrite IH.
Qed.

Lemma ends_with_split (p s : text) :
  ends_with p s = true ->
  s = firstn (length s - length p) s ++ p /\ (length p <= length s)%nat.
Proof.
  unfold ends_with, text_eqb. intros H. apply andb_true_iff in H as [L E].
  apply Nat.leb_le in L.
  destruct (list_eq_dec ascii_dec _ _) as [E' | _]; [|discriminate].
  split; [|exact L].
  pose proof (firstn_skipn (length s - length p) s) as F. rewrite E' in F. now symmetry.
Qed.

Lemma glob_frame_parts (name : text) :
  glob_frame name = true ->
  no_slash name = true
  /\ name = firstn (length name - 2) name ++ str ".c"
  /\ (5 <= length (firstn (length name - 2) name))%nat.
Proof.
  unfold glob_frame. intros H.
  apply andb_true_iff in H as [H L]. apply andb_true_iff in H as [H E].
  apply andb_true_iff in H as [N _]. apply Nat.leb_le in L.
  apply ends_with_split in E as [E _].
  split; [exact N|]. split; [exact E|]. rewrite length_firstn. lia.
Qed.

Lemma stem_of_frame (dir name : text) :
  glob_frame name = true ->
  path_stem (dir ++ str "/" ++ name) = firstn (length name - 2) name.
Proof.
  intros H. apply glob_frame_parts in H as (N & E & L).
  unfold path_stem. rewrite path_name_child by exact N.
  set (base := firstn (length name - 2) name) in *.
  rewrite E. rewrite rfind_dot_suffix_c.
  rewrite length_app. change (length (str ".c")) with 2%nat.
  destruct (Nat.ltb_spec 0 (length base)); [|lia].
  destruct (Nat.ltb_spec (length base) (length base + 2 - 1)); [|lia].
  cbn [andb]. rewrite firstn_app, Nat.sub_diag, firstn_all. simpl.
  apply app_nil_r.
Qed.

End Names.



(** ** Sources and outputs as paths *)

Section Paths.

Local Arguments Ascii.eqb : simpl never.

Lemma split_from_no_slash (acc s : text) :
  no_slash s = true -> split_from acc s = [acc ++ s].
Proof.
  revert acc. induction s as [| c s IH]; intros acc H; cbn [split_from].
  - now rewrite app_nil_r.
  - cbn [no_slash forallb] in H. apply andb_true_iff in H as [Hc Hs].
    apply negb_true_iff in Hc. rewrite Hc. rewrite IH by exact Hs.
    now rewrite <- app_assoc.
Qed.

(** [Path(s)] for a name of two characters or more without a slash. *)
Lemma Path_of_name (s : text) :
  no_slash s = true -> (2 <= length s)%nat -> Path s = {| root := []; parts := [s] |}.
Proof.
  intros N L. unfold Path. rewrite split_from_no_slash by exact N.
  cbn [app filter].
  assert (E1 : text_eqb s [] = false).
  { unfold text_eqb. destruct (list_eq_dec ascii_dec s []) as [-> |]; [|reflexivity].
    simpl in L. lia. }
  assert (E2 : text_eqb s (str ".") = false).
  { unfold text_eqb. destruct (list_eq_dec ascii_dec s (str ".")) as [-> |]; [|reflexivity].
    simpl in L. lia. }
  rewrite E1, E2. cbn [orb negb].
  destruct s as [| c s]; [simpl in L; lia|].
  cbn [no_slash forallb] in N. apply andb_true_iff in N as [Hc _].
  apply negb_true_iff in Hc. cbn [leading_slashes]. now rewrite Hc.
Qed.

Lemma truediv_name (p : ppath) (s : text) :
  no_slash s = true -> (2 <= length s)%nat ->
  truediv p s = {| root := root p; parts := parts p ++ [s] |}.
Proof. intros N L. unfold truediv. now rewrite Path_of_name. Qed.

Lemma path_str_child (r : text) (m : list text) (y : text) :
  path_str {| root := r; parts := m ++ [y] |} = r ++ join (str "/") (m ++ [y]).
Proof. unfold path_str. cbn [root parts]. destruct r, m; reflexivity. Qed.

Lemma join_last (sep : text) (m : list text) (y : text) :
  exists z, join sep (m ++ [y]) = z ++ y.
Proof.
  induction m as [| x m IH].
  - now exists [].
  - destruct IH as [z E]. exists (x ++ sep ++ z).
    cbn [app]. change (join sep (x :: m ++ [y]))
      with (match m ++ [y] with [] => x | _ => x ++ sep ++ join sep (m ++ [y]) end).
    destruct (m ++ [y]) eqn:El; [now destruct m|].
    rewrite E. now rewrite <- !app_assoc.
Qed.

Lemma no_slash_app (a b : text) :
  no_slash (a ++ b) = no_slash a && no_slash b.
Proof. unfold no_slash. apply forallb_app. Qed.

Lemma no_slash_firstn (n : nat) (s : text) :
  no_slash s = true -> no_slash (firstn n s) = true.
Proof.
  intros H. rewrite <- (firstn_skipn n s), no_slash_app in H.
  now apply andb_true_iff in H as [H _].
Qed.

(** For a name that [glob('frame*.c')] selects, the source is the name
    under the input directory and the output is the name with [.bin] for
    [.c] under the output directory, as paths. *)
Lemma frame_paths (input_dir output_dir : ppath) (name : text) :
  glob_frame name = true ->
  let base := firstn (length name - 2) name in
  path_str (truediv input_dir name)
  = root input_dir ++ join (str "/") (parts input_dir ++ [name])
  /\ pp_name (truediv input_dir name) = name
  /\ bin_path_for output_dir (truediv input_dir name)
     = root output_dir ++ join (str "/") (parts output_dir ++ [base ++ str ".bin"]).
Proof.
  intros H base.
  destruct (@glob_frame_parts name H) as (N & E & L). fold base in E, L.
  assert (Ln : (2 <= length name)%nat).
  { rewrite E, length_app. simpl. lia. }
  rewrite truediv_name by assumption.
  split; [apply path_str_child|].
  assert (En : pp_name {| root := root input_dir; parts := parts input_dir ++ [name] |}
               = name).
  { unfold pp_name. cbn [parts]. apply last_last. }
  split; [exact En|].
  unfold bin_path_for, pp_stem. rewrite En.
  assert (Es : path_stem name = base).
  { pose proof (@stem_of_frame [] name H) as S. fold base in S. rewrite <- S.
    unfold path_stem. rewrite path_name_child by exact N.
    unfold path_name. rewrite name_from_no_slash by exact N. reflexivity. }
  rewrite Es.
  rewrite truediv_name.
  - apply path_str_child.
  - rewrite no_slash_app. apply andb_true_iff. split; [|reflexivity].
    now apply no_slash_firstn.
  - rewrite length_app. simpl. lia.
Qed.

(** No output of a batch is one of its sources: the files that the run
    reads are not changed by what it writes. *)
Lemma outputs_are_not_sources (input_dir output_dir : ppath) (name1 name2 : text) :
  glob_frame name1 = true -> glob_frame name2 = true ->
  bin_path_for output_dir (truediv input_dir name1)
  <> path_str (truediv input_dir name2).
Proof.
  intros H1 H2.
  destruct (@frame_paths input_dir output_dir name1 H1) as (_ & _ & E1).
  destruct (@frame_paths input_dir output_dir name2 H2) as (E2 & _ & _).
  rewrite E1, E2. clear E1 E2.
  destruct (join_last (str "/") (parts output_dir)
              (firstn (length name1 - 2) name1 ++ str ".bin")) as [z1 Ez1].
  destruct (join_last (str "/") (parts input_dir) name2) as [z2 Ez2].
  unfold text in *. rewrite Ez1, Ez2. clear Ez1 Ez2.
  destruct (@glob_frame_parts name2 H2) as (_ & E & _). rewrite E.
  intros C.
  apply (f_equal (fun l => last l "x"%char)) in C.
  change (str ".bin") with (str ".bi" ++ ["n"%char]) in C.
  change (str ".c") with (str "." ++ ["c"%char]) in C.
  rewrite !app_assoc, !last_last in C. discriminate.
Qed.

End Paths.

(** ** Pixels, tokens and bytes *)

Section Quantization.

Local Open Scope Z_scope.

Lemma token_injective (h h' : ascii * ascii) : token h = token h' -> h = h'.
Proof.
  unfold token. intros E. injection E as E1 E2.
  destruct h, h'. simpl in *. now subst.
Qed.

Lemma hexpair_injective (x y : Z) :
  0 <= x < 256 -> 0 <= y < 256 -> hexpair x = hexpair y -> x = y.
Proof.
  intros Hx Hy E.
  destruct (hexpair_byte Hx) as (_ & _ & Ex).
  destruct (hexpair_byte Hy) as (_ & _ & Ey).
  rewrite <- Ex, <- Ey, E. reflexivity.
Qed.

Lemma pixel_tokens_pairs (r g b : Z) :
  pixel_tokens r g b
  = [ token (hexpair (Z.land (rgb565 r g b) 255));
      token (hexpair (Z.land (Z.shiftr (rgb565 r g b) 8) 255)) ].
Proof.
  unfold pixel_tokens. cbv zeta.
  now rewrite !token_of_byte by apply low_byte_range.
Qed.

Lemma pixel_tokens_injective (r g b r' g' b' : Z) :
  pixel_tokens r g b = pixel_tokens r' g' b' -> rgb565 r g b = rgb565 r' g' b'.
Proof.
  rewrite !pixel_tokens_pairs. intros E.
  assert (E1 := f_equal (fun l => hd [] l) E).
  assert (E2 := f_equal (fun l => hd [] (tl l)) E).
  cbn [hd tl] in E1, E2.
  apply token_injective, hexpair_injective in E1; try apply low_byte_range.
  apply token_injective, hexpair_injective in E2; try apply low_byte_range.
  rewrite !land_255 in E1, E2. rewrite !Z.shiftr_div_pow2 in E2 by lia.
  change (2 ^ 8) with 256 in E2.
  pose proof (rgb565_range r g b). pose proof (rgb565_range r' g' b').
  Z.div_mod_to_equations. lia.
Qed.

End Quantization.

(** X6: two pixels with 8-bit channels are written as the same two tokens
    exactly when they agree on the top 5 bits of red, the top 6 bits of
    green and the top 5 bits of blue; the low 3, 2 and 3 bits are lost and
    nothing else is. *)
Theorem same_tokens_iff_same_top_bits (r g b r' g' b' : Z)
    (Hr : (0 <= r < 256)%Z) (Hg : (0 <= g < 256)%Z) (Hb : (0 <= b < 256)%Z)
    (Hr' : (0 <= r' < 256)%Z) (Hg' : (0 <= g' < 256)%Z) (Hb' : (0 <= b' < 256)%Z) :
  pixel_tokens r g b = pixel_tokens r' g' b'
  <-> (r / 8 = r' / 8 /\ g / 4 = g' / 4 /\ b / 8 = b' / 8)%Z.
Proof.
  split.
  - intros E. apply pixel_tokens_injective in E.
    rewrite !rgb565_sum in E.
    rewrite !Z.mod_small in E by (Z.div_mod_to_equations; lia).
    assert (0 <= r / 8 < 32 /\ 0 <= r' / 8 < 32 /\ 0 <= g / 4 < 64
            /\ 0 <= g' / 4 < 64 /\ 0 <= b / 8 < 32 /\ 0 <= b' / 8 < 32)%Z
      as (? & ? & ? & ? & ? & ?) by (Z.div_mod_to_equations; lia).
    lia.
  - intros (Er & Eg & Eb). unfold pixel_tokens.
    assert (E : rgb565 r g b = rgb565 r' g' b')
      by (rewrite !rgb565_sum, Er, Eg, Eb; reflexivity).
    now rewrite E.
Qed.

Lemma same_tokens_iff_same_top_bits_witness :
  pixel_tokens 200 100 50 = pixel_tokens 207 103 55.
Proof.
  apply (@same_tokens_iff_same_top_bits 200 100 50 207 103 55); try lia.
  repeat split; reflexivity.
Defined.

Section FormatRoundTrip.

Local Arguments Ascii.eqb : simpl never.

Lemma byte_tokens_pairs (bs : list Z) :
  Forall (fun b => 0 <= b < 256)%Z bs -> byte_tokens bs = map token (map hexpair bs).
Proof.
  unfold byte_tokens. induction 1 as [| b bs Hb _ IH]; [reflexivity|].
  cbn [map]. now rewrite IH, token_of_byte.
Qed.

Lemma tokens_no_rbrace (ps : list (ascii * ascii)) :
  forallb (fun h => is_hex (fst h) && is_hex (snd h)) ps = true ->
  forallb (forallb not_rbrace) (map token ps) = true.
Proof.
  induction ps as [| h ps IH]; intros H; [reflexivity|].
  cbn [forallb map] in *. apply andb_true_iff in H as [Hh Hps].
  apply andb_true_iff in Hh as [H1 H2].
  now rewrite token_no_rbrace, IH.
Qed.

Lemma extract_rows (c_file_path : text) (bs : list Z) :
  bs <> [] -> Forall (fun b => 0 <= b < 256)%Z bs ->
  extract_bytes c_file_path ([nl] ++ rows (byte_tokens bs)) = Ok bs.
Proof.
  intros Hne Hr.
  destruct (stream_pairs_hex Hr) as [Hhex Hval].
  assert (F : findall hex_pattern ([nl] ++ rows (byte_tokens bs))
              = map (fun h => [fst h; snd h]) (map hexpair bs)).
  { rewrite findall_clean by reflexivity.
    rewrite byte_tokens_pairs by exact Hr.
    rewrite <- (app_nil_r (rows _)), findall_rows by exact Hhex.
    rewrite findall_nil. apply app_nil_r. }
  unfold extract_bytes. rewrite F.
  rewrite to_bytes_pairs by exact Hhex. rewrite Hval.
  destruct bs; [congruence | reflexivity].
Qed.

Lemma upper_hex_digit (c : ascii) :
  is_hex c = true ->
  is_hex (upper_hex c) = true /\ hex_digit (upper_hex c) = hex_digit c.
Proof.
  destruct c as [b0 b1 b2 b3 b4 b5 b6 b7].
  destruct b0, b1, b2, b3, b4, b5, b6, b7; vm_compute; intros H;
    (discriminate || (split; reflexivity)).
Qed.

End FormatRoundTrip.

(** X7: any non-empty sequence of bytes, written as the encoder writes its
    tokens and rows and put in a [static const uint8_t NAME_map[]]
    declaration, is read back by the decoder unchanged, whatever follows the
    declaration. *)
Theorem rows_round_trip
    (c_file_path name post : text) (bs : list Z)
    (Hne : bs <> []) (Hr : Forall (fun b => 0 <= b < 256)%Z bs)
    (Hid : identifier name = true) :
  extract_bytes c_file_path ([nl] ++ rows (byte_tokens bs)) = Ok bs
  /\ parse_content c_file_path
       (str "static const uint8_t " ++ name ++ str "_map[] = {" ++
        [nl] ++ rows (byte_tokens bs) ++ str "};" ++ post) = Ok bs.
Proof.
  pose proof (extract_rows c_file_path Hne Hr) as E.
  split; [exact E|].
  set (d := {| ws_static := str " "; ws_const := str " "; attr := None;
               bits16 := false; ws_type := str " "; ident := name ++ str "_map";
               ws_eq1 := str " "; ws_eq2 := str " ";
               body := [nl] ++ rows (byte_tokens bs) |}).
  assert (Shape : str "static const uint8_t " ++ name ++ str "_map[] = {" ++
                  [nl] ++ rows (byte_tokens bs) ++ str "};" ++ post
                  = render d ++ (str ";" ++ post)).
  { unfold render, d.
    cbn [ws_static ws_const attr bits16 ws_type ident ws_eq1 ws_eq2 body].
    rewrite <- !app_assoc. reflexivity. }
  unfold identifier in Hid. apply andb_true_iff in Hid as [Hn Hw].
  assert (V : valid d = true).
  { unfold valid, d.
    cbn [ws_static ws_const attr bits16 ws_type ident ws_eq1 ws_eq2 body].
    assert (B : forallb not_rbrace ([nl] ++ rows (byte_tokens bs)) = true).
    { apply forallb_app_true; [reflexivity|].
      apply rows_forall; try reflexivity.
      rewrite byte_tokens_pairs by exact Hr.
      apply tokens_no_rbrace. now apply stream_pairs_hex. }
    rewrite B.
    rewrite (forallb_app_true is_word name (str "_map") Hw eq_refl).
    assert (N : nonempty (name ++ str "_map") = true).
    { unfold nonempty. apply negb_true_iff, Nat.eqb_neq. rewrite length_app.
      simpl. lia. }
    rewrite N. reflexivity. }
  assert (M : search array_pattern_map (render d ++ (str ";" ++ post))
              = Some (str ";" ++ post, Some ([nl] ++ rows (byte_tokens bs)))).
  { apply search_found. apply (accept_map d); [exact V|].
    apply map_suffix_app. now apply nonempty_spec. }
  rewrite Shape. unfold parse_content. rewrite M. exact E.
Qed.

Lemma rows_round_trip_witness :
  ([7; 0; 255]%Z <> [] /\ identifier (str "frame1") = true)
  /\ extract_bytes (str "frame1.c") ([nl] ++ rows (byte_tokens [7; 0; 255]%Z))
     = Ok [7; 0; 255]%Z.
Proof.
  split; [split; [discriminate | reflexivity]|].
  apply (@rows_round_trip (str "frame1.c") (str "frame1") [] [7; 0; 255]%Z);
    [discriminate | repeat constructor; lia | reflexivity].
Defined.

(** X8: the decoder reads a token with upper-case digits as the same byte
    as the token with lower-case digits (the encoder writes lower case). *)
Theorem hex_digits_case_insensitive
    (c_file_path rest : text) (h1 h2 : ascii)
    (H1 : is_hex h1 = true) (H2 : is_hex h2 = true) :
  byte_of (upper_hex h1, upper_hex h2) = byte_of (h1, h2)
  /\ extract_bytes c_file_path (token (upper_hex h1, upper_hex h2) ++ rest)
     = extract_bytes c_file_path (token (h1, h2) ++ rest).
Proof.
  destruct (upper_hex_digit h1 H1) as [U1 D1].
  destruct (upper_hex_digit h2 H2) as [U2 D2].
  split.
  - unfold byte_of, hex_value. cbn [fst snd]. now rewrite D1, D2.
  - unfold extract_bytes. rewrite !findall_hit by assumption.
    cbn [fst snd to_bytes]. unfold int16. cbn [int16_from].
    now rewrite D1, D2.
Qed.

Lemma hex_digits_case_insensitive_witness :
  (is_hex "a" = true /\ is_hex "f" = true)
  /\ extract_bytes (str "f.c") (str "0xAF, 0x01") = extract_bytes (str "f.c") (str "0xaf, 0x01").
Proof.
  split; [split; reflexivity|].
  apply (@hex_digits_case_insensitive (str "f.c") (str ", 0x01") "a" "f"); reflexivity.
Defined.

(** ** The script of [png_to_c.py] *)

Import PngScript.

Section Script.

Local Arguments Ascii.eqb : simpl never.

(** A frame that raises nothing: what the loop does with it. *)
Lemma frame_step (st0 : studio) (dir : text) (i : nat) (rest : list nat) :
  frame_error st0 dir i = None ->
  exists st1,
    convert_frames st0 dir (i :: rest) = convert_frames st1 dir rest
    /\ pictures st1 = pictures st0 /\ c_fault st1 = c_fault st0
    /\ c_files st1 = c_files st0 ++ frame_output st0 dir i
    /\ lines st1 = lines st0 ++ frame_lines st0 dir i.
Proof.
  unfold frame_error, frame_output, frame_lines. intros He.
  cbn [convert_frames]. unfold convert_png_to_c_io.
  destruct (pictures st0 (png_file dir i)) as [| e | img]; [| discriminate |].
  - eexists. split; [reflexivity|]. cbn [show pictures c_fault c_files lines].
    rewrite app_nil_r. repeat split.
  - rewrite He. eexists. split; [reflexivity|].
    cbn [show write_c pictures c_fault c_files lines].
    rewrite <- app_assoc. repeat split.
Qed.

Lemma frame_same (st st0 : studio) (dir : text) (i : nat) :
  pictures st0 = pictures st -> c_fault st0 = c_fault st ->
  frame_error st0 dir i = frame_error st dir i
  /\ frame_output st0 dir i = frame_output st dir i
  /\ frame_lines st0 dir i = frame_lines st dir i.
Proof.
  intros Ep Ef. unfold frame_error, frame_output, frame_lines.
  rewrite Ep, Ef. repeat split.
Qed.

Lemma convert_frames_clean (st : studio) (dir : text) (frames : list nat) :
  (forall i, In i frames -> frame_error st dir i = None) ->
  forall st0, pictures st0 = pictures st -> c_fault st0 = c_fault st ->
  exists st1,
    convert_frames st0 dir frames = (Ok tt, st1)
    /\ c_files st1 = c_files st0 ++ flat_map (frame_output st dir) frames
    /\ lines st1 = lines st0 ++ flat_map (frame_lines st dir) frames.
Proof.
  induction frames as [| i frames IH]; intros H st0 Ep Ef.
  - exists st0. simpl. now rewrite !app_nil_r.
  - destruct (@frame_same st st0 dir i Ep Ef) as (E1 & E2 & E3).
    destruct (@frame_step st0 dir i frames) as (st1 & S & Ep1 & Ef1 & C & L).
    { rewrite E1. apply H. now left. }
    destruct (IH (fun j Hj => H j (or_intror Hj)) st1) as (st2 & R & C2 & L2);
      [congruence | congruence |].
    exists st2. rewrite S, R. split; [reflexivity|].
    cbn [flat_map]. rewrite C2, L2, C, L, E2, E3, <- !app_assoc. split; reflexivity.
Qed.


Lemma starts_with_slash (name : text) :
  no_slash name = true -> starts_with (str "/") name = false.
Proof.
  destruct name as [| c name]; [reflexivity|].
  cbn [no_slash forallb]. intros H. apply andb_true_iff in H as [Hc _].
  apply negb_true_iff in Hc. unfold starts_with. simpl.
  rewrite Ascii.eqb_sym, Hc. reflexivity.
Qed.

Lemma path_name_join (dir name : text) :
  no_slash name = true -> path_name (path_join dir name) = name.
Proof.
  intros H. unfold path_join. rewrite (starts_with_slash _ H).
  destruct (length dir =? 0)%nat eqn:E0.
  - apply Nat.eqb_eq in E0. destruct dir; [|discriminate]. simpl.
    unfold path_name. now apply name_from_no_slash.
  - cbn [orb]. destruct (ends_with (str "/") dir) eqn:E1.
    + apply ends_with_split in E1 as [E1 _]. rewrite E1.
      rewrite <- app_assoc. now apply path_name_child.
    + now apply path_name_child.
Qed.

(** Whatever happens, the loop only adds files of the frames it is given. *)
Lemma convert_frames_new (dir : text) (frames : list nat) :
  forall st0,
  exists new,
    c_files (snd (convert_frames st0 dir frames)) = c_files st0 ++ new
    /\ Forall (fun entry => exists i img,
                 In i frames
                 /\ entry = (c_file dir i, convert_png_to_c img (var_name i))) new.
Proof.
  induction frames as [| i frames IH]; intros st0.
  - exists []. simpl. now rewrite app_nil_r.
  - cbn [convert_frames]. unfold convert_png_to_c_io.
    destruct (pictures st0 (png_file dir i)) as [| e | img].
    + destruct (IH (show st0 (SWarning (png_file dir i)))) as (new & E & F).
      exists new. split; [exact E|].
      eapply Forall_impl; [|exact F]. intros x (j & img & Hj & ->). eauto 6 using in_cons.
    + exists []. simpl. now rewrite app_nil_r.
    + destruct (c_fault st0 (c_file dir i)).
      * exists []. simpl. now rewrite app_nil_r.
      * match goal with |- context [convert_frames ?s dir frames] =>
          destruct (IH s) as (new & E & F) end.
        exists ((c_file dir i, convert_png_to_c img (var_name i)) :: new).
        split.
        -- rewrite E. cbn [show write_c c_files]. now rewrite <- app_assoc.
        -- constructor; [exists i, img; split; [now left | reflexivity]|].
           eapply Forall_impl; [|exact F].
           intros x (j & img' & Hj & ->). eauto 6 using in_cons.
Qed.


End Script.

(** X9: when no frame raises an exception, the script ends normally; it
    writes, in order, one C file for each of the three frames whose PNG is
    there, holding the text of [convert_png_to_c] under the name
    [anim_frame_i], and prints a warning for each PNG that is not there:
    a missing frame does not stop the later ones. *)
Theorem script_skips_missing (st : studio) (base_dir : text)
    (H : forall i, (i < 3)%nat -> frame_error st (images_dir base_dir) i = None) :
  let dir := images_dir base_dir in
  let r := script st base_dir in
  fst r = Ok tt
  /\ c_files (snd r) = c_files st ++ flat_map (frame_output st dir) [0; 1; 2]%nat
  /\ lines (snd r) = lines st ++ flat_map (frame_lines st dir) [0; 1; 2]%nat
  /\ (forall i, (i < 3)%nat -> pictures st (png_file dir i) = NoFile ->
        In (SWarning (png_file dir i)) (lines (snd r)))
  /\ (forall i img, (i < 3)%nat -> pictures st (png_file dir i) = Picture img ->
        In (c_file dir i, convert_png_to_c img (var_name i)) (c_files (snd r))).
Proof.
  intros dir r.
  destruct (@convert_frames_clean st dir (seq 0 3)) with (st0 := st)
    as (st1 & R & C & L); try reflexivity.
  { intros i Hi. apply H. apply in_seq in Hi. lia. }
  unfold r, script. fold dir. rewrite R. cbn [fst snd].
  split; [reflexivity|]. split; [exact C|]. split; [exact L|]. split.
  - intros i Hi Hp. rewrite L. apply in_or_app. right.
    apply in_flat_map. exists i. split; [apply in_seq; lia|].
    unfold frame_lines. rewrite Hp. now left.
  - intros i img Hi Hp. rewrite C. apply in_or_app. right.
    apply in_flat_map. exists i. split; [apply in_seq; lia|].
    unfold frame_output. rewrite Hp. now left.
Qed.

Lemma script_skips_missing_witness :
  map fst (c_files (snd (script sample_studio (str "/p"))))
  = [ str "/p/components/lvgl_ui/images/anim_frame_0.c";
      str "/p/components/lvgl_ui/images/anim_frame_2.c" ]
  /\ In (SWarning (str "/p/components/lvgl_ui/images/anim_frame_1.png"))
        (lines (snd (script sample_studio (str "/p")))).
Proof.
  assert (H : forall i, (i < 3)%nat ->
            frame_error sample_studio (images_dir (str "/p")) i = None).
  { intros i Hi. destruct i as [| [| [| i]]]; try reflexivity. lia. }
  destruct (script_skips_missing sample_studio (str "/p") H) as (_ & C & _ & W & _).
  split.
  - rewrite C. vm_compute. reflexivity.
  - apply (W 1%nat); [lia | reflexivity].
Defined.



(** X11: no file that the script writes is one the decoder would take:
    its name [anim_frame_i.c] is not selected by [glob('frame*.c')], and its
    text makes [parse_c_array] raise the extraction error. *)
Theorem script_files_not_for_decoder (st : studio) (base_dir : text) :
  exists new,
    c_files (snd (script st base_dir)) = c_files st ++ new
    /\ Forall (fun entry =>
                 glob_frame (path_name (fst entry)) = false
                 /\ forall c_file_path,
                      parse_content c_file_path (snd entry)
                      = Raise (ValueError (str "Could not find pixel data array in "
                                           ++ c_file_path))) new.
Proof.
  destruct (convert_frames_new (images_dir base_dir) (seq 0 3) st) as (new & E & F).
  exists new. split; [exact E|].
  eapply Forall_impl; [|exact F].
  intros entry (i & img & Hi & ->). cbn [fst snd].
  assert (Hcases : i = 0%nat \/ i = 1%nat \/ i = 2%nat) by (apply in_seq in Hi; lia).
  split.
  - unfold c_file.
    destruct Hcases as [-> | [-> | ->]];
      rewrite path_name_join by reflexivity; reflexivity.
  - intros p.
    assert (Hn : no_space (var_name i) = true)
      by (destruct Hcases as [-> | [-> | ->]]; reflexivity).
    unfold parse_content.
    change array_pattern_map
      with (before_ident (Cat (Rep is_word 1) (Cat (Lit (str "_map")) after_ident))).
    change array_pattern_any with (before_ident (Cat (Rep is_word 1) after_ident)).
    now rewrite !encoder_text_no_match.
Qed.
